(** * The cyber battle backend: battle store, registry, session gateway

    A shallow embedding of [src/main.py].  The module-level variables
    ([battles], [current_battle_id], [manager.active_connections]) and the
    process-wide random generator form one [World]; every handler is a
    function from a [World] to an outcome and a new [World].  Python
    exceptions are the [Raise] outcome.

    The handlers are coroutines: between two [await]s a handler runs alone,
    at an [await] the event loop may run the others.  The only [await]s
    after a handler has touched the state are the sends of [broadcast], so
    the loop of [broadcast] is given twice: as it runs alone, which is how
    the handlers below use it, and with what other handlers do during each
    send ([broadcast_amid]). *)

From Stdlib Require Import QArith Qround Qpower Lqa.
From Stdlib Require Import Floats.
From stdpp Require Import gmap strings list fin_maps pretty.

Set Warnings "-register-all".
Close Scope Q_scope.
Open Scope Z_scope.
Open Scope string_scope.
Open Scope list_scope.

(** ** Values of the data model *)

(** A [WebSocket] is an opaque connection handle; only its identity is used. *)
Definition WebSocket := nat.

(** A Python [float] is represented by the rational it denotes. *)
Definition float := Q.

(** What [json.loads] can produce. *)
Inductive json :=
| JNull
| JBool (b : bool)
| JInt (n : Z)
| JFloat (x : float)
| JStr (s : string)
| JArr (items : list json)
| JObj (members : list (string * json)).

(** The dictionaries built by [generate_ai_action]; the key ["type"] of the
    source is the constructor. *)
Inductive Action :=
| AttackAction (timestamp actor technique description : string)
    (threat_level : Z) (success_probability : float)
| DefenseAction (timestamp actor strategy description : string)
    (effectiveness : float).

Record BattleState := mkBattleState {
  battle_id : string;
  scenario : string;
  attacker_persona : string;
  defender_persona : string;
  current_phase : string;
  threat_level : Z;
  audience_votes : gmap string Z;
  battle_log : list Action;
  is_active : bool
}.

Record AttackerPersona := mkAttacker {
  attacker_name : string;
  attacker_description : string;
  attacker_threat_level : Z;
  techniques : list string
}.

Record DefenderPersona := mkDefender {
  defender_name : string;
  defender_description : string;
  strategy : string
}.

Definition ATTACKER_PERSONAS : gmap string AttackerPersona :=
  list_to_map [
    ("script_kiddie",
      mkAttacker "Script Kiddie" "Novice hacker using basic tools" 1
        ["Phishing"; "Malware"; "Social Engineering"]);
    ("cybercriminal",
      mkAttacker "Cybercriminal" "Organized crime member with moderate skills" 3
        ["Ransomware"; "Banking Trojans"; "Credential Theft"]);
    ("apt_group",
      mkAttacker "APT Group" "Advanced Persistent Threat with sophisticated methods" 7
        ["Zero-day Exploits"; "Living off the Land"; "Supply Chain Attacks"]);
    ("insider_threat",
      mkAttacker "Insider Threat" "Malicious employee with privileged access" 5
        ["Data Exfiltration"; "Privilege Escalation"; "Backdoor Installation"]);
    ("nation_state",
      mkAttacker "Nation-State Actor" "State-sponsored cyber warfare unit" 10
        ["Infrastructure Attacks"; "Espionage"; "Cyber Warfare"])
  ].

Definition DEFENDER_PERSONAS : gmap string DefenderPersona :=
  list_to_map [
    ("security_analyst",
      mkDefender "Security Analyst" "Front-line defender monitoring threats"
        "Reactive monitoring and incident response");
    ("threat_hunter",
      mkDefender "Threat Hunter" "Proactive threat detection specialist"
        "Proactive hunting and threat intelligence");
    ("incident_responder",
      mkDefender "Incident Responder" "Emergency response and containment expert"
        "Rapid containment and forensic analysis");
    ("security_architect",
      mkDefender "Security Architect" "Strategic defense planning specialist"
        "Defense-in-depth and architectural security");
    ("ai_defender",
      mkDefender "AI Defender" "Machine learning powered defense system"
        "Automated threat detection and response")
  ].

(** The three envelopes handed to [json.dumps] before a broadcast. *)
Inductive envelope :=
| battle_started (battle : BattleState)
| vote_update (votes : gmap string Z)
| battle_action (action : Action) (battle_state : BattleState).

(** ** Exceptions and the process state *)

Inductive exn :=
| HTTPException (status_code : Z) (detail : string)
| WebSocketDisconnect
| JSONDecodeError
| KeyError (key : string)
| TypeError
| IndexError
| ValueError
| AttributeError
| RuntimeError (what : string).

Inductive result (A : Type) :=
| Ok (a : A)
| Raise (e : exn).
Arguments Ok {A} a.
Arguments Raise {A} e.

(** The generator behind the [random] module: a tape of raw draws and the
    position of the next one. *)
Record Rng := mkRng {
  entropy : nat → N;
  cursor : nat
}.

Record World := mkWorld {
  battles : gmap string BattleState;
  current_battle_id : option string;
  active_connections : list WebSocket;
  (** connections whose [send_text] raises, with the exception raised *)
  broken : gmap WebSocket exn;
  (** every payload a connection has accepted, oldest first *)
  delivered : list (WebSocket * envelope);
  rng : Rng
}.

Definition set_battles (f : gmap string BattleState → gmap string BattleState)
    (w : World) : World :=
  mkWorld (f (battles w)) (current_battle_id w) (active_connections w)
          (broken w) (delivered w) (rng w).

Definition set_current_battle_id (c : option string) (w : World) : World :=
  mkWorld (battles w) c (active_connections w) (broken w) (delivered w) (rng w).

Definition set_active_connections (f : list WebSocket → list WebSocket)
    (w : World) : World :=
  mkWorld (battles w) (current_battle_id w) (f (active_connections w))
          (broken w) (delivered w) (rng w).

Definition set_delivered
    (f : list (WebSocket * envelope) → list (WebSocket * envelope))
    (w : World) : World :=
  mkWorld (battles w) (current_battle_id w) (active_connections w)
          (broken w) (f (delivered w)) (rng w).

Definition set_rng (r : Rng) (w : World) : World :=
  mkWorld (battles w) (current_battle_id w) (active_connections w)
          (broken w) (delivered w) r.

(** A handler: it reads and writes the world and returns or raises. *)
Definition M (A : Type) : Type := World → result A * World.

Definition ret {A} (a : A) : M A := fun w => (Ok a, w).

Definition raise {A} (e : exn) : M A := fun w => (Raise e, w).

Definition bind {A B} (m : M A) (k : A → M B) : M B :=
  fun w =>
    match m w with
    | (Ok a, w') => k a w'
    | (Raise e, w') => (Raise e, w')
    end.

(** [try: body except: handler] with a bare [except]. *)
Definition try_except {A} (body : M A) (handler : exn → M A) : M A :=
  fun w =>
    match body w with
    | (Ok a, w') => (Ok a, w')
    | (Raise e, w') => handler e w'
    end.

Declare Scope handler_scope.
Delimit Scope handler_scope with handler.
Notation "x <~ m ;; k" := (bind m (fun x => k))
  (at level 100, m at next level, right associativity) : handler_scope.
Notation "m ;;; k" := (bind m (fun _ => k))
  (at level 100, right associativity) : handler_scope.
Open Scope handler_scope.

(** ** ConnectionManager *)

Definition send_text (connection : WebSocket) (message : envelope) : M unit :=
  fun w =>
    match broken w !! connection with
    | Some e => (Raise e, w)
    | None => (Ok tt, set_delivered (fun d => d ++ [(connection, message)]) w)
    end.

Definition connect (websocket : WebSocket) : M unit :=
  fun w => (Ok tt, set_active_connections (fun l => l ++ [websocket]) w).

(** [list.remove]: the first occurrence goes, [ValueError] when there is none. *)
Fixpoint list_remove_first (x : WebSocket) (l : list WebSocket)
    : option (list WebSocket) :=
  match l with
  | [] => None
  | y :: rest =>
      if decide (x = y) then Some rest
      else cons y <$> list_remove_first x rest
  end.

Definition disconnect (websocket : WebSocket) : M unit :=
  fun w =>
    match list_remove_first websocket (active_connections w) with
    | Some l => (Ok tt, set_active_connections (fun _ => l) w)
    | None => (Raise ValueError, w)
    end.

(** The body of the loop of [broadcast]: the send, with its bare [except]. *)
Definition guarded_send (connection : WebSocket) (message : envelope)
    : M unit :=
  try_except (send_text connection message) (fun _ => ret tt).

(** [for connection in self.active_connections] walks the list by position
    and reads the list as it is when each round starts; the loop ends when
    the position is past the end.  [broadcast_from rounds position] is the
    loop from [position] on while no other handler runs; [rounds] bounds
    the rounds still to make. *)
Fixpoint broadcast_from (rounds : nat) (position : nat) (message : envelope)
    : M unit :=
  match rounds with
  | O => ret tt
  | S rounds =>
      fun w =>
        match active_connections w !! position with
        | None => (Ok tt, w)
        | Some connection =>
            (guarded_send connection message ;;;
             broadcast_from rounds (S position) message) w
        end
  end.

(** The loop with other handlers running: every [await send_text] lets the
    event loop run them, and [others] lists what they do to the state
    during the first, the second, ... send; the connection was read before
    the send, the next round reads the list they left.  Once [others] is
    used up the loop goes on undisturbed, for the rounds the list then
    needs. *)
Fixpoint broadcast_amid (others : list (World → World)) (position : nat)
    (message : envelope) : M unit :=
  match others with
  | [] =>
      fun w =>
        broadcast_from (length (active_connections w) - position) position
          message w
  | other :: others =>
      fun w =>
        match active_connections w !! position with
        | None => (Ok tt, w)
        | Some connection =>
            (try_except (fun w => send_text connection message (other w))
                        (fun _ => ret tt) ;;;
             broadcast_amid others (S position) message) w
        end
  end.

(** [broadcast] as the handlers below use it: a run during which nothing
    else is scheduled. *)
Definition broadcast (message : envelope) : M unit :=
  broadcast_amid [] 0 message.

(** ** HTTP control surface *)

(** [int(x)] on a float truncates toward zero. *)
Definition int_of_float (x : float) : Z :=
  Z.quot (Qnum x) (Zpos (Qden x)).

Record StartResponse := mkStartResponse {
  start_message : string;
  start_battle_id : string;
  start_battle_state : BattleState
}.

(** [now] is the reading of [time.time()]. *)
Definition start_battle (now : float) (scenario attacker defender : string)
    : M StartResponse :=
  let battle_id := "battle_" +:+ pretty (int_of_float now) in
  let battle :=
    mkBattleState battle_id scenario attacker defender
                  "reconnaissance" 1 ∅ [] true in
  fun w =>
    let w := set_current_battle_id (Some battle_id) w in
    let w := set_battles (insert battle_id battle) w in
    (broadcast (battle_started battle) ;;;
     ret (mkStartResponse "Battle started" battle_id battle)) w.

(** The guard [current_battle_id and current_battle_id in battles], with the
    battle it selects. [None] and the empty string are both falsy. *)
Definition current_battle (w : World) : option (string * BattleState) :=
  match current_battle_id w with
  | None => None
  | Some id =>
      if decide (id = "") then None
      else match battles w !! id with
           | Some battle => Some (id, battle)
           | None => None
           end
  end.

Definition get_current_battle : M (option BattleState) :=
  fun w => (Ok (snd <$> current_battle w), w).

Record VoteResponse := mkVoteResponse {
  vote_message : string;
  vote_votes : gmap string Z
}.

Definition set_audience_votes (v : gmap string Z) (b : BattleState)
    : BattleState :=
  mkBattleState (battle_id b) (scenario b) (attacker_persona b)
                (defender_persona b) (current_phase b) (threat_level b)
                v (battle_log b) (is_active b).

Definition set_battle_log (l : list Action) (b : BattleState) : BattleState :=
  mkBattleState (battle_id b) (scenario b) (attacker_persona b)
                (defender_persona b) (current_phase b) (threat_level b)
                (audience_votes b) l (is_active b).

(** [user_id] is [None] when the request leaves it out. *)
Definition cast_vote (opt : string) (user_id : option string)
    : M VoteResponse :=
  let user_id := default "anonymous" user_id in
  fun w =>
    match current_battle w with
    | None => (Raise (HTTPException 404 "No active battle"), w)
    | Some (id, battle) =>
        let votes :=
          match audience_votes battle !! opt with
          | None => <[opt := 0]> (audience_votes battle)
          | Some _ => audience_votes battle
          end in
        match votes !! opt with
        | None => (Raise (KeyError opt), w)
        | Some n =>
            let votes := <[opt := n + 1]> votes in
            let w := set_battles (insert id (set_audience_votes votes battle)) w in
            (broadcast (vote_update votes) ;;;
             ret (mkVoteResponse "Vote cast successfully" votes)) w
        end
    end.

(** ** Floating point

    A binary64 operation is the exact operation followed by rounding to the
    nearest number with a 53-bit significand, ties to even.  The exponent
    range is not bounded here: no value met below is near the overflow or
    the subnormal threshold. *)

Definition pow2 (e : Z) : Q := Qpower (Qmake 2 1) e.

(** floor (log2 x), for 0 < x *)
Definition ilog2 (x : Q) : Z :=
  let e := Z.log2 (Qnum x) - Z.log2 (Zpos (Qden x)) in
  if Qle_bool (pow2 e) x then e else e - 1.

Definition round_half_even (m : Q) : Z :=
  let f := Qfloor m in
  match Qcompare (m - inject_Z f)%Q (Qmake 1 2) with
  | Lt => f
  | Gt => f + 1
  | Eq => if Z.even f then f else f + 1
  end.

Definition round_pos (x : Q) : Q :=
  let e := ilog2 x in
  (inject_Z (round_half_even (x * pow2 (52 - e))) * pow2 (e - 52))%Q.

(** round to nearest binary64 *)
Definition fl (x : Q) : float :=
  match Qcompare x 0 with
  | Eq => 0%Q
  | Gt => round_pos x
  | Lt => (- round_pos (- x))%Q
  end.

Definition fadd (x y : float) : float := fl (x + y).
Definition fsub (x y : float) : float := fl (x - y).
Definition fmul (x y : float) : float := fl (x * y).

(** The literals of the source, as the parser reads them. *)
Definition lit_0_3 : float := fl (Qmake 3 10).
Definition lit_0_9 : float := fl (Qmake 9 10).
Definition lit_0_4 : float := fl (Qmake 4 10).
Definition lit_0_95 : float := fl (Qmake 95 100).

(** The rational a hardware binary64 number denotes, to compare [fl] with
    the machine's arithmetic on sample points. *)
Definition Q_of_binary64 (f : PrimFloat.float) : option Q :=
  match FloatOps.Prim2SF f with
  | SpecFloat.S754_zero _ => Some 0%Q
  | SpecFloat.S754_finite s m e =>
      Some (inject_Z (if s then Z.neg m else Z.pos m) * pow2 e)%Q
  | _ => None
  end.

Definition agrees (machine : option Q) (model : float) : bool :=
  match machine with
  | Some x => Qeq_bool x model
  | None => false
  end.

(** ** The [random] module *)

(** The world once one raw draw has been taken. *)
Definition advance (w : World) : World :=
  set_rng (mkRng (entropy (rng w)) (S (cursor (rng w)))) w.

Definition next_raw : M N :=
  fun w => (Ok (entropy (rng w) (cursor (rng w))), advance w).

(** [_randbelow(n)]: some number below [n]. *)
Definition randbelow (n : nat) : M nat :=
  raw <~ next_raw ;; ret (N.to_nat raw `mod` n)%nat.

(** [random.choice(seq)] *)
Definition random_choice {A} (seq : list A) : M A :=
  match seq with
  | [] => raise IndexError
  | _ =>
      i <~ randbelow (length seq) ;;
      match seq !! i with
      | Some x => ret x
      | None => raise IndexError
      end
  end.

(** [random.random()]: a multiple of 2^-53 in [0, 1). *)
Definition random_random : M float :=
  raw <~ next_raw ;;
  ret (Qmake (Z.of_N (raw `mod` 2 ^ 53)%N) (2 ^ 53)%positive).

(** [random.uniform(a, b)] is [a + (b - a) * self.random()]. *)
Definition random_uniform (a b : float) : M float :=
  r <~ random_random ;; ret (fadd a (fmul (fsub b a) r)).

(** ** Action generator *)

Definition lookup_persona {P} (table : gmap string P) (tag : string) : M P :=
  match table !! tag with
  | Some p => ret p
  | None => raise (KeyError tag)
  end.

(** The two branches of [generate_ai_action], once [action_type] is chosen.
    [now] is [datetime.now().isoformat()]. *)
Definition emit_action (now : string) (attacker : AttackerPersona)
    (defender : DefenderPersona) (action_type : string) : M Action :=
  if decide (action_type = "attack") then
    technique <~ random_choice (techniques attacker) ;;
    success_probability <~ random_uniform lit_0_3 lit_0_9 ;;
    ret (AttackAction now (attacker_name attacker) technique
           (attacker_name attacker +:+ " launches " +:+ technique +:+ " attack")
           (attacker_threat_level attacker) success_probability)
  else
    effectiveness <~ random_uniform lit_0_4 lit_0_95 ;;
    ret (DefenseAction now (defender_name defender) (strategy defender)
           (defender_name defender +:+ " implements " +:+ strategy defender)
           effectiveness).

Definition action_types : list string :=
  ["attack"; "defend"; "reconnaissance"; "escalation"].

Definition generate_ai_action (now : string) (battle : BattleState)
    (user_input : option json) : M Action :=
  attacker <~ lookup_persona ATTACKER_PERSONAS (attacker_persona battle) ;;
  defender <~ lookup_persona DEFENDER_PERSONAS (defender_persona battle) ;;
  action_type <~ random_choice action_types ;;
  emit_action now attacker defender action_type.

(** The value under ["type"] and the keys of the dictionary. *)
Definition action_type_of (a : Action) : string :=
  match a with
  | AttackAction _ _ _ _ _ _ => "attack"
  | DefenseAction _ _ _ _ _ => "defense"
  end.

Definition action_keys (a : Action) : list string :=
  match a with
  | AttackAction _ _ _ _ _ _ =>
      ["timestamp"; "type"; "actor"; "technique"; "description";
       "threat_level"; "success_probability"]
  | DefenseAction _ _ _ _ _ =>
      ["timestamp"; "type"; "actor"; "strategy"; "description";
       "effectiveness"]
  end.

(** ** Session gateway *)

(** What [receive_text] gives the loop: the disconnect signal, or a text
    frame.  A text frame is held as what [json.loads] makes of it, [None]
    when the text does not decode, together with the clock reading used if
    an action is generated for it. *)
Inductive frame :=
| Disconnect
| Text (now : string) (data : option json).

(** A decoded object keeps the last value given for a repeated key. *)
Fixpoint dict_get (key : string) (members : list (string * json))
    : option json :=
  match members with
  | [] => None
  | (k, v) :: rest =>
      match dict_get key rest with
      | Some v' => Some v'
      | None => if decide (k = key) then Some v else None
      end
  end.

(** [message[key]] *)
Definition subscript (message : json) (key : string) : M json :=
  match message with
  | JObj members =>
      match dict_get key members with
      | Some v => ret v
      | None => raise (KeyError key)
      end
  | _ => raise TypeError
  end.

(** [message.get(key)] *)
Definition get_method (message : json) (key : string) : M (option json) :=
  match message with
  | JObj members => ret (dict_get key members)
  | _ => raise AttributeError
  end.

(** [value == s] for a string [s] *)
Definition eq_str (value : json) (s : string) : bool :=
  match value with
  | JStr s' => bool_decide (s' = s)
  | _ => false
  end.

(** One turn of the [while True] body after [receive_text] returned. *)
Definition handle_text (now : string) (data : option json) : M unit :=
  message <~ match data with
             | Some v => ret v
             | None => raise JSONDecodeError
             end ;;
  type <~ subscript message "type" ;;
  if eq_str type "battle_action" then
    fun w =>
      match current_battle w with
      | Some (id, battle) =>
          (user_input <~ get_method message "user_input" ;;
           action <~ generate_ai_action now battle user_input ;;
           let battle := set_battle_log (battle_log battle ++ [action]) battle in
           (fun w => (Ok tt, set_battles (insert id battle) w)) ;;;
           broadcast (battle_action action battle)) w
      | None => (Ok tt, w)
      end
  else ret tt.

(** The loop over the frames that arrive; [None] while it still waits in
    [receive_text], [Some e] once [e] has left the loop. *)
Fixpoint receive_loop (frames : list frame) (w : World) : option exn * World :=
  match frames with
  | [] => (None, w)
  | Disconnect :: _ => (Some WebSocketDisconnect, w)
  | Text now data :: rest =>
      match handle_text now data w with
      | (Ok _, w') => receive_loop rest w'
      | (Raise e, w') => (Some e, w')
      end
  end.

Inductive session :=
| Waiting
| Finished (r : result unit).

Definition websocket_endpoint (websocket : WebSocket) (frames : list frame)
    (w : World) : session * World :=
  match connect websocket w with
  | (Raise e, w) => (Finished (Raise e), w)
  | (Ok _, w) =>
      match receive_loop frames w with
      | (None, w) => (Waiting, w)
      | (Some WebSocketDisconnect, w) =>
          let '(r, w) := disconnect websocket w in (Finished r, w)
      | (Some e, w) => (Finished (Raise e), w)
      end
  end.

(** A run of [cast_vote] requests, one after the other; the answer of the
    last one is returned. *)
Fixpoint cast_votes (calls : list (string * option string))
    (last : option VoteResponse) : M (option VoteResponse) :=
  match calls with
  | [] => ret last
  | (opt, user_id) :: rest =>
      response <~ cast_vote opt user_id ;; cast_votes rest (Some response)
  end.

(** How often [opt] occurs among the options of [calls]. *)
Definition times_cast (opt : string) (calls : list (string * option string))
    : Z :=
  Z.of_nat (length (filter (λ call, call.1 = opt) calls)).

(** The deliveries of a broadcast during which nothing else runs: the
    working connections, in registry order. *)
Definition deliveries (w : World) (message : envelope)
    : list (WebSocket * envelope) :=
  (λ c, (c, message)) <$> filter (λ c, broken w !! c = None) (active_connections w).

(** ** Notions used in the statements *)

(** The tally after one more vote for [opt]. *)
Definition voted (opt : string) (votes : gmap string Z) : gmap string Z :=
  <[opt := default 0 (votes !! opt) + 1]> votes.

(** What a tally [votes] holds for [opt] after [n] more votes for it. *)
Definition tally_plus (votes : gmap string Z) (opt : string) (n : Z)
    : option Z :=
  if decide (n = 0) then votes !! opt
  else Some (default 0 (votes !! opt) + n).

(** The battle that [start_battle] builds. *)
Definition new_battle (now : float) (scenario attacker defender : string)
    : BattleState :=
  mkBattleState ("battle_" +:+ pretty (int_of_float now))
                scenario attacker defender "reconnaissance" 1 ∅ [] true.

(** The state from which the examples start: nothing started yet, three
    viewers connected, the second of them unreachable. *)
Definition w_idle : World :=
  mkWorld ∅ None [1; 2; 3]%nat {[ 2%nat := RuntimeError "closed" ]} []
          (mkRng (λ n, N.of_nat n) 0).

(** [w_idle] after a battle was started at 1700000000.25. *)
Definition w_hospital : World :=
  (start_battle (Qmake 6800000001 4) "hospital" "apt_group" "ai_defender"
     w_idle).2.

(** The draw [random.random()] is about to return in [w]. *)
Definition unit_draw (w : World) : float :=
  Qmake (Z.of_N (entropy (rng w) (cursor (rng w)) `mod` 2 ^ 53)%N)
        (2 ^ 53)%positive.

(** [w_hospital] after two votes for "defender". *)
Definition w_voted : World :=
  (cast_votes [("defender", None); ("defender", None)] None w_hospital).2.

(** and after a viewer then sends [{"type": "battle_action"}]. *)
Definition w_acted : World :=
  (handle_text "2024-01-01T00:00:00"
     (Some (JObj [("type", JStr "battle_action")])) w_voted).2.

(** ** The states the process can be in *)

Definition set_broken (b : gmap WebSocket exn) (w : World) : World :=
  mkWorld (battles w) (current_battle_id w) (active_connections w)
          b (delivered w) (rng w).

(** One uninterrupted stretch of a handler, or a change of the network. *)
Inductive step (w : World) : World → Prop :=
| step_start_battle now scenario attacker defender r w' :
    start_battle now scenario attacker defender w = (r, w') → step w w'
| step_cast_vote opt user_id r w' :
    cast_vote opt user_id w = (r, w') → step w w'
| step_connect websocket r w' :
    connect websocket w = (r, w') → step w w'
| step_disconnect websocket r w' :
    disconnect websocket w = (r, w') → step w w'
| step_handle_text now data r w' :
    handle_text now data w = (r, w') → step w w'
| step_network b :
    step w (set_broken b w).

(** The process starts with no battle and no viewer. *)
Inductive reachable : World → Prop :=
| reachable_start b r :
    reachable (mkWorld ∅ None [] b [] r)
| reachable_step w w' :
    reachable w → step w w' → reachable w'.

(** The current identifier, if there is one, is not empty and is a key of
    [battles]. *)
Definition current_is_stored (w : World) : Prop :=
  match current_battle_id w with
  | None => True
  | Some id => id ≠ "" ∧ is_Some (battles w !! id)
  end.

(** No battle is current, in the words of the specification: none was ever
    started, or the current identifier is not a key of [battles]. *)
Definition no_current_battle (w : World) : Prop :=
  current_battle_id w = None
  ∨ ∃ id, current_battle_id w = Some id ∧ battles w !! id = None.

(** A payload the loop body cannot dispatch on: text that does not decode,
    a decoded value that is not an object, or an object without ["type"]. *)
Definition malformed (data : option json) : Prop :=
  match data with
  | None => True
  | Some (JObj members) => dict_get "type" members = None
  | Some _ => True
  end.

(** The value a well-formed message carries under ["type"]. *)
Definition message_type (data : option json) : option json :=
  match data with
  | Some (JObj members) => dict_get "type" members
  | _ => None
  end.

(** ** The rest of the module *)

(** [ConnectionManager.send_personal_message]: one send, not guarded. *)
Definition send_personal_message (message : envelope) (websocket : WebSocket)
    : M unit :=
  send_text websocket message.

(** [battle] is as [start_battle] leaves a battle, apart from its tally and
    its log: keyed by its own identifier, active, at threat level 1, in the
    first phase. *)
Definition battle_wf (id : string) (battle : BattleState) : Prop :=
  battle_id battle = id ∧
  (∃ seconds : Z, id = "battle_" +:+ pretty seconds) ∧
  is_active battle = true ∧
  threat_level battle = 1 ∧
  current_phase battle = "reconnaissance".

(** [action] is what the two personas of [battle] can produce. *)
Definition action_wf (battle : BattleState) (action : Action) : Prop :=
  ∃ attacker defender,
    ATTACKER_PERSONAS !! attacker_persona battle = Some attacker ∧
    DEFENDER_PERSONAS !! defender_persona battle = Some defender ∧
    match action with
    | AttackAction _ actor technique description level success_probability =>
        actor = attacker_name attacker ∧
        technique ∈ techniques attacker ∧
        description
        = attacker_name attacker +:+ " launches " +:+ technique +:+ " attack" ∧
        level = attacker_threat_level attacker ∧
        (lit_0_3 <= success_probability)%Q ∧
        (success_probability < lit_0_9)%Q
    | DefenseAction _ actor strat description effectiveness =>
        actor = defender_name defender ∧
        strat = strategy defender ∧
        description
        = defender_name defender +:+ " implements " +:+ strategy defender ∧
        (lit_0_4 <= effectiveness)%Q ∧
        (effectiveness < lit_0_95)%Q
    end.

Definition action_timestamp (action : Action) : string :=
  match action with
  | AttackAction timestamp _ _ _ _ _ => timestamp
  | DefenseAction timestamp _ _ _ _ => timestamp
  end.

(** Every stored battle is well formed, its counts are positive and its log
    holds only actions of its own personas. *)
Definition store_wf (w : World) : Prop :=
  ∀ id battle,
    battles w !! id = Some battle →
    battle_wf id battle ∧
    (∀ opt n, audience_votes battle !! opt = Some n → (1 ≤ n)%Z) ∧
    Forall (action_wf battle) (battle_log battle).

(** The inbound message [{"type": "battle_action"}], with whatever else. *)
Definition is_battle_action (members : list (string * json)) : Prop :=
  ∃ type, dict_get "type" members = Some type ∧
          eq_str type "battle_action" = true.

(** A handler whose result and draws depend on the state only through the
    random generator. *)
Definition reads_only_rng {A} (m : M A) : Prop :=
  ∀ w1 w2, rng w1 = rng w2 →
    (m w1).1 = (m w2).1 ∧ rng (m w1).2 = rng (m w2).2.

(** The label [random.choice] picks among the four in state [w]. *)
Definition chosen_label (w : World) : option string :=
  action_types
    !! (N.to_nat (entropy (rng w) (cursor (rng w))) `mod` length action_types)%nat.

(** What other handlers do during a send leaves the registry and the
    connections as they are and only adds to the delivery record: votes,
    new battles, actions, but no session coming or going. *)
Definition quiet (other : World → World) : Prop :=
  ∀ w,
    active_connections (other w) = active_connections w ∧
    broken (other w) = broken w ∧
    ∃ sent, delivered (other w) = delivered w ++ sent.

(** * Registry *)

Section Registry.

Implicit Types (w : World) (message : envelope) (c : WebSocket).

Lemma set_delivered_nil w : set_delivered (λ d, d ++ []) w = w.
Proof. destruct w; unfold set_delivered; simpl. by rewrite app_nil_r. Qed.

Lemma set_delivered_app w (l1 l2 : list (WebSocket * envelope)) :
  set_delivered (λ d, d ++ l2) (set_delivered (λ d, d ++ l1) w)
  = set_delivered (λ d, d ++ (l1 ++ l2)) w.
Proof. destruct w; unfold set_delivered; simpl. by rewrite app_assoc. Qed.

(** The undisturbed loop from any position, given rounds enough for the
    rest of the list: it returns, and records the payload for each working
    connection from that position on. *)
Lemma broadcast_from_spec (rounds position : nat) message w :
  (length (active_connections w) - position ≤ rounds)%nat →
  broadcast_from rounds position message w
  = (Ok tt,
     set_delivered
       (λ d, d ++ ((λ c, (c, message))
                     <$> filter (λ c, broken w !! c = None)
                           (drop position (active_connections w))))
       w).
Proof.
  revert position w. induction rounds as [|rounds IH]; intros position w Hle.
  - rewrite drop_ge by lia. simpl. by rewrite set_delivered_nil.
  - simpl. destruct (active_connections w !! position) as [c|] eqn:Hc.
    + rewrite (drop_S _ _ _ Hc), filter_cons.
      apply lookup_lt_Some in Hc.
      unfold bind, guarded_send, try_except, send_text.
      destruct (broken w !! c) as [e|] eqn:Hb.
      * rewrite decide_False by done. unfold ret. apply IH. lia.
      * rewrite decide_True by done. rewrite IH by (simpl; lia). simpl.
        by rewrite set_delivered_app.
    + apply lookup_ge_None in Hc. rewrite drop_ge by lia. simpl.
      by rewrite set_delivered_nil.
Qed.

Lemma broadcast_spec message w :
  broadcast message w
  = (Ok tt, set_delivered (λ d, d ++ deliveries w message) w).
Proof.
  unfold broadcast, deliveries. simpl.
  rewrite broadcast_from_spec by lia. by rewrite drop_0.
Qed.

Lemma elem_of_deliveries w message c :
  (c, message) ∈ deliveries w message
  ↔ c ∈ active_connections w ∧ broken w !! c = None.
Proof.
  unfold deliveries. rewrite list_elem_of_fmap. split.
  - intros (c' & [= ->] & Hin). by apply list_elem_of_filter in Hin as [? ?].
  - intros [? ?]. exists c. split; [done|]. by apply list_elem_of_filter.
Qed.

End Registry.

(** A broadcast during which no other handler runs: whatever connections
    fail, and with whatever exception, it returns normally, and what it adds
    to the delivery record is the payload once for each registered
    connection that does not fail, in registry order. *)
Lemma broadcast_undisturbed (message : envelope) (w : World) :
  ∃ w',
    broadcast message w = (Ok tt, w') ∧
    delivered w' = delivered w ++ deliveries w message ∧
    (∀ c, c ∈ active_connections w → broken w !! c = None →
          (c, message) ∈ deliveries w message) ∧
    (∀ c, is_Some (broken w !! c) → (c, message) ∉ deliveries w message) ∧
    battles w' = battles w ∧
    current_battle_id w' = current_battle_id w ∧
    active_connections w' = active_connections w.
Proof.
  eexists. split; [apply broadcast_spec|].
  repeat split; try done.
  - intros c Hin Hok. by apply elem_of_deliveries.
  - intros c [e He] Hin. apply elem_of_deliveries in Hin as [_ Hnone].
    congruence.
Qed.

(** Whatever the other handlers do during the sends, the loop returns
    normally. *)
Lemma broadcast_amid_returns others position message w :
  ∃ w', broadcast_amid others position message w = (Ok tt, w').
Proof.
  revert position w. induction others as [|other others IH];
    intros position w; simpl.
  - rewrite broadcast_from_spec by lia. by eexists.
  - destruct (active_connections w !! position) as [c|]; [|by eexists].
    unfold bind, try_except, send_text.
    destruct (broken (other w) !! c); apply IH.
Qed.

(** C5: [broadcast] never raises, whatever the other handlers do while its
    sends are awaited.  But it does not reach every working session: with
    sessions 1, 2 and 3 registered and all working, if session 1's handler
    unregisters it during the first send, the list read in the second round
    is [2; 3], position 1 holds session 3, and session 2, registered and
    working from start to end, is sent nothing. *)
Theorem broadcast_skips_session_after_disconnect (message : envelope)
    (w : World) :
  (∀ others position w0,
     ∃ w', broadcast_amid others position message w0 = (Ok tt, w')) ∧
  let w0 := set_broken ∅ (set_active_connections (λ _, [1; 2; 3]%nat) w) in
  ∃ w',
    broadcast_amid [λ w1, (disconnect 1%nat w1).2] 0 message w0 = (Ok tt, w') ∧
    delivered w' = delivered w ++ [(1%nat, message); (3%nat, message)] ∧
    active_connections w' = [2; 3]%nat ∧
    2%nat ∈ active_connections w0 ∧
    2%nat ∈ active_connections w' ∧
    broken w0 !! 2%nat = None ∧
    broken w' !! 2%nat = None ∧
    (2%nat, message) ∉ [(1%nat, message); (3%nat, message)].
Proof.
  split; [intros others position w0; apply broadcast_amid_returns|].
  eexists. split; [reflexivity|]. simpl.
  split; [by rewrite <- app_assoc|]. split; [done|].
  split; [by right; left|]. split; [by left|].
  split; [done|]. split; [done|].
  intros Hin. apply elem_of_cons in Hin as [[= ?]|Hin].
  apply elem_of_cons in Hin as [[= ?]|Hin]. by apply elem_of_nil in Hin.
Qed.

(** * Battle store *)

Section BattleStore.

Implicit Types (w : World) (battle : BattleState) (id opt : string).

Lemma battle_id_nonempty (s : string) : "battle_" +:+ s ≠ "".
Proof. discriminate. Qed.

Lemma current_battle_Some w id battle :
  current_battle w = Some (id, battle)
  ↔ current_battle_id w = Some id ∧ id ≠ "" ∧ battles w !! id = Some battle.
Proof.
  unfold current_battle. split.
  - destruct (current_battle_id w) as [i|]; [|done].
    destruct (decide (i = "")); [done|].
    destruct (battles w !! i) eqn:Hb; [|done].
    intros [= -> ->]. done.
  - intros (-> & Hne & ->). by rewrite decide_False.
Qed.

Lemma current_battle_None w :
  current_battle w = None
  ↔ current_battle_id w = None ∨ current_battle_id w = Some ""
    ∨ ∃ id, current_battle_id w = Some id ∧ battles w !! id = None.
Proof.
  unfold current_battle. split.
  - destruct (current_battle_id w) as [i|]; [|by left].
    destruct (decide (i = "")) as [->|]; [by right; left|].
    destruct (battles w !! i) eqn:Hb; [done|]. right; right. by exists i.
  - intros [->|[->|(i & -> & Hb)]]; [done..|].
    destruct (decide (i = "")); [done|]. by rewrite Hb.
Qed.

Lemma cast_vote_current opt user_id w id battle :
  current_battle w = Some (id, battle) →
  cast_vote opt user_id w
  = (Ok (mkVoteResponse "Vote cast successfully"
           (voted opt (audience_votes battle))),
     set_delivered
       (λ d, d ++ deliveries w (vote_update (voted opt (audience_votes battle))))
       (set_battles
          (insert id (set_audience_votes (voted opt (audience_votes battle)) battle))
          w)).
Proof.
  intros Hcur. unfold cast_vote, voted. rewrite Hcur.
  destruct (audience_votes battle !! opt) as [n|] eqn:Hn; simpl.
  - rewrite Hn. unfold bind. by rewrite broadcast_spec.
  - rewrite lookup_insert_eq, insert_insert_eq. unfold bind.
    by rewrite broadcast_spec.
Qed.

Lemma cast_vote_none opt user_id w :
  current_battle w = None →
  cast_vote opt user_id w = (Raise (HTTPException 404 "No active battle"), w).
Proof. intros Hcur. unfold cast_vote. by rewrite Hcur. Qed.

Lemma current_battle_after_vote w id battle votes l :
  current_battle w = Some (id, battle) →
  current_battle
    (set_delivered l
       (set_battles (insert id (set_audience_votes votes battle)) w))
  = Some (id, set_audience_votes votes battle).
Proof.
  intros (Hid & Hne & Hb)%current_battle_Some.
  apply current_battle_Some. simpl. by rewrite lookup_insert_eq.
Qed.

Lemma times_cast_nil opt : times_cast opt [] = 0.
Proof. done. Qed.

Lemma times_cast_cons opt o u calls :
  times_cast opt ((o, u) :: calls)
  = (if decide (o = opt) then 1 else 0) + times_cast opt calls.
Proof.
  unfold times_cast. rewrite filter_cons. simpl.
  destruct (decide (o = opt)); simpl; lia.
Qed.

Lemma times_cast_nonneg opt calls : (0 ≤ times_cast opt calls)%Z.
Proof. unfold times_cast. lia. Qed.

(** A run of votes from any tally: each entry grows by the number of votes
    cast for it. *)
Lemma cast_votes_tally calls : ∀ w id battle last,
  current_battle w = Some (id, battle) →
  ∃ w' votes,
    cast_votes calls last w
    = (Ok (match calls with
           | [] => last
           | _ => Some (mkVoteResponse "Vote cast successfully" votes)
           end), w') ∧
    current_battle w' = Some (id, set_audience_votes votes battle) ∧
    ∀ opt, votes !! opt
           = tally_plus (audience_votes battle) opt (times_cast opt calls).
Proof.
  induction calls as [|[o u] calls IH]; intros w id battle last Hcur.
  - exists w, (audience_votes battle). split; [done|]. split.
    + by destruct battle.
    + intros opt. by rewrite times_cast_nil.
  - simpl. unfold bind at 1.
    rewrite (cast_vote_current _ _ _ _ _ Hcur).
    pose proof (current_battle_after_vote w id battle
                  (voted o (audience_votes battle))
                  (λ d, d ++ deliveries w
                     (vote_update (voted o (audience_votes battle)))) Hcur)
      as Hcur'.
    destruct (IH _ _ _ (Some (mkVoteResponse "Vote cast successfully"
                                (voted o (audience_votes battle)))) Hcur')
      as (w' & votes & Hrun & Hcur'' & Htally).
    exists w', votes. split; [|split].
    + rewrite Hrun. destruct calls as [|c calls]; [|done].
      do 4 f_equal. apply map_eq. intros opt.
      rewrite Htally, times_cast_nil. unfold tally_plus.
      by rewrite decide_True.
    + rewrite Hcur''. by destruct battle.
    + intros opt. rewrite Htally, times_cast_cons. simpl.
      pose proof (times_cast_nonneg opt calls) as Hnn.
      unfold tally_plus, voted.
      destruct (decide (o = opt)) as [->|Hne].
      * rewrite lookup_insert_eq. simpl.
        repeat case_decide; try lia; f_equal; lia.
      * rewrite lookup_insert_ne by done.
        repeat case_decide; try lia; done.
Qed.

End BattleStore.

Section Control.

Implicit Types (w : World) (battle : BattleState) (id opt : string).

Lemma start_battle_spec now scenario attacker defender w :
  let battle := new_battle now scenario attacker defender in
  start_battle now scenario attacker defender w
  = (Ok (mkStartResponse "Battle started" (battle_id battle) battle),
     set_delivered (λ d, d ++ deliveries w (battle_started battle))
       (set_battles (insert (battle_id battle) battle)
          (set_current_battle_id (Some (battle_id battle)) w))).
Proof.
  simpl. unfold start_battle, bind. by rewrite broadcast_spec.
Qed.

(** Two identifiers agree exactly when the two clock readings have the
    same whole number of seconds. *)
Lemma battle_id_eq_iff now1 now2 s1 a1 d1 s2 a2 d2 :
  battle_id (new_battle now1 s1 a1 d1) = battle_id (new_battle now2 s2 a2 d2)
  ↔ int_of_float now1 = int_of_float now2.
Proof.
  unfold new_battle. cbn [battle_id]. split.
  - intros H. apply (inj (String.app "battle_")) in H.
    by apply (inj pretty) in H.
  - by intros ->.
Qed.

End Control.

(** C1: from a battle whose tally is empty, after any non-empty run of
    [cast_vote] calls the tally returned by the last call is the one stored
    in the current battle, it gives every option the number of times it was
    cast, and it has no entry for an option that was not cast. *)
Theorem cast_vote_sequence_counts (w : World) (id : string)
    (battle : BattleState) (calls : list (string * option string)) :
  current_battle w = Some (id, battle) →
  audience_votes battle = ∅ →
  calls ≠ [] →
  ∃ response w',
    cast_votes calls None w = (Ok (Some response), w') ∧
    audience_votes <$> (snd <$> current_battle w') = Some (vote_votes response) ∧
    audience_votes <$> battles w' !! id = Some (vote_votes response) ∧
    ∀ opt,
      vote_votes response !! opt
      = if decide (times_cast opt calls = 0) then None
        else Some (times_cast opt calls).
Proof.
  intros Hcur Hempty Hcalls.
  destruct (cast_votes_tally calls w id battle None Hcur)
    as (w' & votes & Hrun & Hcur' & Htally).
  exists (mkVoteResponse "Vote cast successfully" votes), w'.
  split; [|split; [|split]].
  - rewrite Hrun. by destruct calls.
  - by rewrite Hcur'.
  - apply current_battle_Some in Hcur' as (_ & _ & ->). done.
  - intros opt. simpl. rewrite Htally. unfold tally_plus.
    rewrite Hempty, lookup_empty. simpl.
    case_decide; [done|]. f_equal; lia.
Qed.

Lemma cast_vote_sequence_counts_witness :
  let battle :=
    new_battle (Qmake 6800000001 4) "hospital" "apt_group" "ai_defender" in
  let calls :=
    [("defender", None); ("attacker", Some "u1"); ("defender", Some "u2")] in
  current_battle w_hospital = Some ("battle_1700000000", battle) ∧
  audience_votes battle = ∅ ∧
  calls ≠ [] ∧
  ∃ response w',
    cast_votes calls None w_hospital = (Ok (Some response), w') ∧
    audience_votes <$> (snd <$> current_battle w') = Some (vote_votes response) ∧
    audience_votes <$> battles w' !! "battle_1700000000"
      = Some (vote_votes response) ∧
    ∀ opt,
      vote_votes response !! opt
      = if decide (times_cast opt calls = 0) then None
        else Some (times_cast opt calls).
Proof.
  intros battle calls.
  assert (current_battle w_hospital = Some ("battle_1700000000", battle))
    as Hcur by (vm_compute; reflexivity).
  assert (audience_votes battle = ∅) as Hempty by reflexivity.
  assert (calls ≠ []) as Hcalls by discriminate.
  split; [exact Hcur|]. split; [exact Hempty|]. split; [exact Hcalls|].
  exact (cast_vote_sequence_counts w_hospital "battle_1700000000" battle calls
           Hcur Hempty Hcalls).
Defined.

(** C2: in a state whose current identifier, if any, is not the empty
    string (every identifier [start_battle] sets starts with "battle_"),
    [cast_vote] raises exactly when there is no current battle; it then
    raises the 404 "No active battle" error and leaves the whole state, the
    delivery record included, as it was; otherwise it returns the updated
    tally, stores it in the current battle, and broadcasts it in a
    [vote_update] envelope. *)
Theorem cast_vote_fails_iff_no_battle (opt : string)
    (user_id : option string) (w : World) :
  current_battle_id w ≠ Some "" →
  ((∃ e w', cast_vote opt user_id w = (Raise e, w')) ↔ no_current_battle w) ∧
  (no_current_battle w →
     cast_vote opt user_id w
     = (Raise (HTTPException 404 "No active battle"), w)) ∧
  (¬ no_current_battle w →
     ∃ id battle w',
       current_battle w = Some (id, battle) ∧
       let votes := voted opt (audience_votes battle) in
       cast_vote opt user_id w
       = (Ok (mkVoteResponse "Vote cast successfully" votes), w') ∧
       battles w' = <[id := set_audience_votes votes battle]> (battles w) ∧
       current_battle_id w' = current_battle_id w ∧
       delivered w' = delivered w ++ deliveries w (vote_update votes)).
Proof.
  intros Hne.
  assert (current_battle w = None ↔ no_current_battle w) as Hnone.
  { rewrite current_battle_None. unfold no_current_battle. split.
    - intros [H|[H|H]]; [by left|done|by right].
    - intros [H|H]; [by left|by right; right]. }
  split; [|split].
  - split.
    + intros (e & w' & Hraise). apply Hnone.
      destruct (current_battle w) as [[id battle]|] eqn:Hcur; [|done].
      rewrite (cast_vote_current _ _ _ _ _ Hcur) in Hraise. discriminate.
    + intros Hno%Hnone. eexists _, _. by apply cast_vote_none.
  - intros Hno%Hnone. by apply cast_vote_none.
  - intros Hyes.
    destruct (current_battle w) as [[id battle]|] eqn:Hcur.
    + eexists id, battle, _. split; [done|]. simpl.
      split; [by apply cast_vote_current|]. done.
    + destruct Hyes. by apply Hnone.
Qed.

Lemma cast_vote_fails_iff_no_battle_witness :
  current_battle_id w_hospital ≠ Some "" ∧
  ¬ no_current_battle w_hospital ∧
  ∃ id battle w',
    current_battle w_hospital = Some (id, battle) ∧
    let votes := voted "defender" (audience_votes battle) in
    cast_vote "defender" None w_hospital
    = (Ok (mkVoteResponse "Vote cast successfully" votes), w') ∧
    battles w' = <[id := set_audience_votes votes battle]> (battles w_hospital) ∧
    current_battle_id w' = current_battle_id w_hospital ∧
    delivered w' = delivered w_hospital
                   ++ deliveries w_hospital (vote_update votes).
Proof.
  assert (current_battle_id w_hospital ≠ Some "") as Hne by discriminate.
  assert (¬ no_current_battle w_hospital) as Hyes.
  { intros [Hnone | (id & Hid & Habsent)]; [discriminate Hnone|].
    injection Hid as <-. vm_compute in Habsent. discriminate Habsent. }
  split; [exact Hne|]. split; [exact Hyes|].
  exact (proj2 (proj2 (cast_vote_fails_iff_no_battle "defender" None
                         w_hospital Hne)) Hyes).
Defined.

(** C4: right after [start_battle], [get_current_battle] answers with the
    battle that call created and returned, and that battle is active, has
    an empty log and an empty tally, threat level 1 and phase
    "reconnaissance". *)
Theorem start_battle_then_current (now : float)
    (scenario attacker defender : string) (w : World) :
  ∃ response w',
    start_battle now scenario attacker defender w = (Ok response, w') ∧
    get_current_battle w' = (Ok (Some (start_battle_state response)), w') ∧
    battles w' !! start_battle_id response = Some (start_battle_state response) ∧
    current_battle_id w' = Some (start_battle_id response) ∧
    start_battle_state response
    = mkBattleState (start_battle_id response) scenario attacker defender
                    "reconnaissance" 1 ∅ [] true.
Proof.
  eexists _, _. split; [apply start_battle_spec|].
  unfold get_current_battle, current_battle. simpl.
  rewrite lookup_insert_eq. done.
Qed.

(** C10: [cast_vote] does not look at [user_id]: for the same option and the
    same state, any two voter identifiers, given or left out, lead to the
    same response (or error) and the same resulting state, with its tally
    and its deliveries; and so do two runs of votes that differ only in the
    voter identifiers. *)
Theorem cast_vote_ignores_user_id (opt : string)
    (user_id1 user_id2 : option string) (w : World) :
  cast_vote opt user_id1 w = cast_vote opt user_id2 w ∧
  (cast_vote opt user_id1 w).1 = (cast_vote opt None w).1 ∧
  battles (cast_vote opt user_id1 w).2 = battles (cast_vote opt user_id2 w).2 ∧
  delivered (cast_vote opt user_id1 w).2
  = delivered (cast_vote opt user_id2 w).2 ∧
  ∀ calls1 calls2 last,
    calls1.*1 = calls2.*1 →
    cast_votes calls1 last w = cast_votes calls2 last w.
Proof.
  assert (∀ u1 u2, cast_vote opt u1 = cast_vote opt u2) as Hone
    by reflexivity.
  split; [by rewrite (Hone user_id1 user_id2)|].
  split; [by rewrite (Hone user_id1 None)|].
  split; [by rewrite (Hone user_id1 user_id2)|].
  split; [by rewrite (Hone user_id1 user_id2)|].
  intros calls1. revert w.
  induction calls1 as [|[o1 u1] calls1 IH]; intros w [|[o2 u2] calls2] last Hopts;
    try discriminate; [done|].
  injection Hopts as -> Hopts. simpl. unfold bind.
  change (cast_vote o2 u1 w) with (cast_vote o2 u2 w).
  destruct (cast_vote o2 u2 w) as [[response|e] w']; [|done].
  by apply IH.
Qed.

Lemma cast_vote_ignores_user_id_witness :
  let calls1 := [("defender", None); ("attacker", Some "alice")] in
  let calls2 := [("defender", Some "bob"); ("attacker", None)] in
  calls1.*1 = calls2.*1 ∧
  cast_votes calls1 None w_hospital = cast_votes calls2 None w_hospital.
Proof.
  intros calls1 calls2.
  assert (calls1.*1 = calls2.*1) as Hopts by reflexivity.
  split; [exact Hopts|].
  exact (proj2 (proj2 (proj2 (proj2
           (cast_vote_ignores_user_id "defender" None None w_hospital))))
           calls1 calls2 None Hopts).
Defined.

(** C3: two [start_battle] calls whose clock readings fall in the same
    second, here 1700000000.25 and 1700000000.75, return the same
    identifier, and the second battle takes the place of the first in
    [battles]. *)
Theorem start_battle_same_second_same_id (w : World)
    (s1 a1 d1 s2 a2 d2 : string) :
  ∃ r1 w1 r2 w2,
    start_battle (Qmake 6800000001 4) s1 a1 d1 w = (Ok r1, w1) ∧
    start_battle (Qmake 6800000003 4) s2 a2 d2 w1 = (Ok r2, w2) ∧
    start_battle_id r1 = "battle_1700000000" ∧
    start_battle_id r2 = "battle_1700000000" ∧
    battles w2 !! "battle_1700000000" = Some (start_battle_state r2) ∧
    scenario (start_battle_state r2) = s2.
Proof.
  eexists _, _, _, _.
  split; [apply start_battle_spec|]. split; [apply start_battle_spec|].
  split; [by vm_compute|]. split; [by vm_compute|].
  split; [|done].
  cbn [battles set_delivered set_battles].
  replace (battle_id (new_battle (Qmake 6800000003 4) s2 a2 d2))
    with "battle_1700000000" by (by vm_compute).
  by rewrite lookup_insert_eq.
Qed.

(** * Binary64 rounding *)

Section Floats.

Open Scope Q_scope.
Implicit Types (x y m : Q) (e n : Z).

Lemma pow2_pos e : 0 < pow2 e.
Proof. apply Qpower_0_lt. reflexivity. Qed.

Lemma pow2_plus a b : pow2 (a + b) == pow2 a * pow2 b.
Proof. apply Qpower_plus. discriminate. Qed.

Lemma pow2_le a b : (a <= b)%Z -> pow2 a <= pow2 b.
Proof. intros H. apply Qpower_le_compat_l; [exact H | discriminate]. Qed.

Lemma pow2_lt_inv a b : pow2 a < pow2 b -> (a < b)%Z.
Proof. intros H. apply (Qpower_lt_compat_l_inv (2 # 1)); [exact H | reflexivity]. Qed.

Lemma pow2_inject n : (0 <= n)%Z -> pow2 n == inject_Z (2 ^ n).
Proof. intros H. unfold pow2. rewrite Zpower_Qpower by exact H. reflexivity. Qed.

Lemma Qmake_mult_den (n : Z) (d : positive) : (n # d) * inject_Z (Zpos d) == inject_Z n.
Proof. unfold Qeq. simpl. lia. Qed.

Lemma ilog2_spec x : 0 < x -> pow2 (ilog2 x) <= x /\ x < pow2 (ilog2 x + 1).
Proof.
  intros Hx. destruct x as [n d]. 
  assert (0 < n)%Z as Hn. { unfold Qlt in Hx. simpl in Hx. lia. }
  unfold ilog2. cbn [Qnum Qden].
  set (a := Z.log2 n). set (b := Z.log2 (Zpos d)).
  assert (0 <= a)%Z as Ha by apply Z.log2_nonneg.
  assert (0 <= b)%Z as Hb by apply Z.log2_nonneg.
  destruct (Z.log2_spec n Hn) as [Hn1 Hn2]. fold a in Hn1, Hn2.
  destruct (Z.log2_spec (Zpos d) eq_refl) as [Hd1 Hd2]. fold b in Hd1, Hd2.
  assert (0 < inject_Z (Zpos d)) as Hdpos by reflexivity.
  assert (n # d < pow2 (a - b + 1)) as Hup.
  { apply (Qmult_lt_r _ _ _ Hdpos). rewrite Qmake_mult_den.
    apply Qlt_le_trans with (pow2 (a + 1)).
    - rewrite pow2_inject by lia. rewrite <- Zlt_Qlt. replace (a+1)%Z with (Z.succ a) by lia. exact Hn2.
    - replace (a + 1)%Z with ((a - b + 1) + b)%Z by lia.
      rewrite pow2_plus. apply Qmult_le_l; [apply pow2_pos|].
      rewrite pow2_inject by lia. rewrite <- Zle_Qle. exact Hd1. }
  assert (pow2 (a - b - 1) <= n # d) as Hlow.
  { apply (Qmult_le_r _ _ _ Hdpos). rewrite Qmake_mult_den.
    apply Qle_trans with (pow2 a).
    - replace a with ((a - b - 1) + (b + 1))%Z at 2 by lia.
      rewrite pow2_plus. apply Qmult_le_l; [apply pow2_pos|].
      rewrite pow2_inject by lia. rewrite <- Zle_Qle. 
      replace (b+1)%Z with (Z.succ b) by lia. lia.
    - rewrite pow2_inject by lia. rewrite <- Zle_Qle. exact Hn1. }
  destruct (Qle_bool (pow2 (a - b)) (n # d)) eqn:Hcmp.
  - apply Qle_bool_iff in Hcmp. split; assumption.
  - split; [exact Hlow|].
    replace (a - b - 1 + 1)%Z with (a - b)%Z by lia.
    apply Qnot_le_lt. intros Hle. apply Qle_bool_iff in Hle. congruence.
Qed.

Lemma ilog2_mono x y : 0 < x -> x <= y -> (ilog2 x <= ilog2 y)%Z.
Proof.
  intros Hx Hxy.
  destruct (ilog2_spec x Hx) as [Hx1 _].
  destruct (ilog2_spec y (Qlt_le_trans _ _ _ Hx Hxy)) as [_ Hy2].
  assert (pow2 (ilog2 x) < pow2 (ilog2 y + 1)) as H.
  { eapply Qle_lt_trans; [exact Hx1|]. eapply Qle_lt_trans; [exact Hxy|exact Hy2]. }
  apply pow2_lt_inv in H. lia.
Qed.

Lemma round_half_even_floor m : (Qfloor m <= round_half_even m <= Qfloor m + 1)%Z.
Proof.
  unfold round_half_even.
  destruct (m - inject_Z (Qfloor m) ?= 1 # 2); [destruct (Z.even _)|..]; lia.
Qed.

Lemma round_half_even_le m n : m <= inject_Z n -> (round_half_even m <= n)%Z.
Proof.
  intros Hmn. pose proof (Qfloor_le m) as Hf.
  assert (Qfloor m <= n)%Z as Hfn.
  { rewrite Zle_Qle. eapply Qle_trans; eassumption. }
  destruct (Z.eq_dec (Qfloor m) n) as [Heq|Hne].
  - unfold round_half_even. rewrite Heq in *.
    destruct (Qcompare_spec (m - inject_Z n) (1 # 2)) as [E|L|G];
      [exfalso; lra | lia | exfalso; lra].
  - pose proof (round_half_even_floor m). lia.
Qed.

Lemma round_half_even_ge m n : inject_Z n <= m -> (n <= round_half_even m)%Z.
Proof.
  intros Hnm. apply Qfloor_resp_le in Hnm. rewrite Qfloor_Z in Hnm.
  pose proof (round_half_even_floor m). lia.
Qed.

Lemma round_half_even_mono m1 m2 :
  m1 <= m2 -> (round_half_even m1 <= round_half_even m2)%Z.
Proof.
  intros Hle. pose proof (Qfloor_resp_le _ _ Hle) as Hf.
  pose proof (round_half_even_floor m1) as H1.
  pose proof (round_half_even_floor m2) as H2.
  destruct (Z.eq_dec (Qfloor m1) (Qfloor m2)) as [Heq|Hne]; [|lia].
  unfold round_half_even. rewrite <- Heq.
  assert (m1 - inject_Z (Qfloor m1) <= m2 - inject_Z (Qfloor m1)) as Hfrac.
  { lra. }
  destruct (Qcompare_spec (m1 - inject_Z (Qfloor m1)) (1 # 2)) as [E1|L1|G1];
    destruct (Qcompare_spec (m2 - inject_Z (Qfloor m1)) (1 # 2)) as [E2|L2|G2];
    try (destruct (Z.even (Qfloor m1)); lia); try lia; exfalso.
  all: lra.
Qed.
Lemma round_pos_lower x : 0 < x -> pow2 (ilog2 x) <= round_pos x.
Proof.
  intros Hx. destruct (ilog2_spec x Hx) as [Hlo _].
  unfold round_pos. set (e := ilog2 x) in *.
  assert (inject_Z (2 ^ 52) <= x * pow2 (52 - e)) as Hm.
  { rewrite <- pow2_inject by lia.
    replace 52%Z with (e + (52 - e))%Z at 1 by lia. rewrite pow2_plus.
    apply Qmult_le_compat_r; [exact Hlo | apply Qlt_le_weak, pow2_pos]. }
  apply round_half_even_ge in Hm. rewrite Zle_Qle in Hm.
  replace e with (52 + (e - 52))%Z at 1 by lia. rewrite pow2_plus.
  apply Qmult_le_compat_r; [|apply Qlt_le_weak, pow2_pos].
  rewrite (pow2_inject 52) by lia. exact Hm.
Qed.

Lemma round_pos_upper x : 0 < x -> round_pos x <= pow2 (ilog2 x + 1).
Proof.
  intros Hx. destruct (ilog2_spec x Hx) as [_ Hhi].
  unfold round_pos. set (e := ilog2 x) in *.
  assert (x * pow2 (52 - e) <= inject_Z (2 ^ 53)) as Hm.
  { rewrite <- pow2_inject by lia.
    replace 53%Z with ((e + 1) + (52 - e))%Z by lia. rewrite pow2_plus.
    apply Qmult_le_compat_r; [apply Qlt_le_weak, Hhi | apply Qlt_le_weak, pow2_pos]. }
  apply round_half_even_le in Hm. rewrite Zle_Qle in Hm.
  replace (e + 1)%Z with (53 + (e - 52))%Z by lia. rewrite pow2_plus.
  apply Qmult_le_compat_r; [|apply Qlt_le_weak, pow2_pos].
  rewrite (pow2_inject 53) by lia. exact Hm.
Qed.

Lemma round_pos_mono x y : 0 < x -> x <= y -> round_pos x <= round_pos y.
Proof.
  intros Hx Hxy. assert (0 < y) as Hy by lra.
  pose proof (ilog2_mono x y Hx Hxy) as He.
  destruct (Z.eq_dec (ilog2 x) (ilog2 y)) as [Heq|Hne].
  - unfold round_pos. rewrite <- Heq.
    apply Qmult_le_compat_r; [|apply Qlt_le_weak, pow2_pos].
    rewrite <- Zle_Qle. apply round_half_even_mono.
    apply Qmult_le_compat_r; [exact Hxy | apply Qlt_le_weak, pow2_pos].
  - eapply Qle_trans; [apply round_pos_upper; exact Hx|].
    eapply Qle_trans; [|apply round_pos_lower; exact Hy].
    apply pow2_le. lia.
Qed.

Lemma round_pos_pos x : 0 < x -> 0 < round_pos x.
Proof.
  intros Hx. eapply Qlt_le_trans; [apply pow2_pos|].
  apply round_pos_lower. exact Hx.
Qed.

Lemma fl_nonneg x : 0 <= x -> 0 <= fl x.
Proof.
  intros Hx. unfold fl.
  destruct (Qcompare_spec x 0) as [E|L|G]; [lra | lra |].
  apply Qlt_le_weak, round_pos_pos. exact G.
Qed.

(** Rounding is monotone on the non-negative numbers. *)
Lemma fl_mono x y : 0 <= x -> x <= y -> fl x <= fl y.
Proof.
  intros Hx Hxy. unfold fl at 1.
  destruct (Qcompare_spec x 0) as [E|L|G]; [|lra|].
  - apply fl_nonneg. lra.
  - unfold fl. destruct (Qcompare_spec y 0) as [E'|L'|G']; [lra | lra |].
    apply round_pos_mono; assumption.
Qed.

(** [a + (b - a) * r] in binary64, for a draw [r] between 0 and [rmax]. *)
Lemma uniform_range a b r rmax :
  0 <= a -> 0 <= fsub b a -> 0 <= r -> r <= rmax ->
  (fl a <= fadd a (fmul (fsub b a) r)) ∧
  (fadd a (fmul (fsub b a) r) <= fadd a (fmul (fsub b a) rmax)).
Proof.
  intros Ha Hd Hr Hrmax. unfold fadd, fmul.
  set (d := fsub b a) in *.
  assert (0 <= d * r) as Hdr by (apply Qmult_le_0_compat; assumption).
  assert (d * r <= d * rmax) as Hdr'.
  { rewrite (Qmult_comm d r), (Qmult_comm d rmax).
    apply Qmult_le_compat_r; assumption. }
  pose proof (fl_nonneg _ Hdr) as Hp.
  pose proof (fl_mono _ _ Hdr Hdr') as Hp'.
  split; (apply fl_mono; [lra|lra]).
Qed.

(** The rounding model against the machine's binary64 arithmetic, on the
    expression of [random.uniform] at the largest draw and at a middle one. *)
Example uniform_0_3_0_9_top_agrees :
  agrees
    (Q_of_binary64
       (PrimFloat.add 0x1.3333333333333p-2%float
          (PrimFloat.mul
             (PrimFloat.sub 0x1.ccccccccccccdp-1%float 0x1.3333333333333p-2%float)
             0x1.fffffffffffffp-1%float)))
    (fadd lit_0_3 (fmul (fsub lit_0_9 lit_0_3) (Qmake (2 ^ 53 - 1) (2 ^ 53))))
  = true.
Proof. by vm_compute. Qed.

Example uniform_0_4_0_95_top_agrees :
  agrees
    (Q_of_binary64
       (PrimFloat.add 0x1.999999999999ap-2%float
          (PrimFloat.mul
             (PrimFloat.sub 0x1.e666666666666p-1%float 0x1.999999999999ap-2%float)
             0x1.fffffffffffffp-1%float)))
    (fadd lit_0_4 (fmul (fsub lit_0_95 lit_0_4) (Qmake (2 ^ 53 - 1) (2 ^ 53))))
  = true.
Proof. by vm_compute. Qed.

Example literals_agree :
  agrees (Q_of_binary64 0x1.3333333333333p-2%float) lit_0_3 = true ∧
  agrees (Q_of_binary64 0x1.ccccccccccccdp-1%float) lit_0_9 = true ∧
  agrees (Q_of_binary64 0x1.999999999999ap-2%float) lit_0_4 = true ∧
  agrees (Q_of_binary64 0x1.e666666666666p-1%float) lit_0_95 = true.
Proof. by vm_compute. Qed.

End Floats.

(** * Action generator *)

Section Generator.

Implicit Types (w : World) (battle : BattleState).

Lemma unit_draw_range w :
  (0 <= unit_draw w)%Q ∧ (unit_draw w <= Qmake (2 ^ 53 - 1) (2 ^ 53))%Q.
Proof.
  unfold unit_draw.
  pose proof (N.mod_lt (entropy (rng w) (cursor (rng w))) (2 ^ 53)%N) as Hlt.
  assert (2 ^ 53 = 9007199254740992)%N as HN by reflexivity.
  assert (2 ^ 53 = 9007199254740992)%positive as HP by reflexivity.
  assert (2 ^ 53 = 9007199254740992)%Z as HZ by reflexivity.
  rewrite HN in *. rewrite HP, HZ.
  specialize (Hlt ltac:(discriminate)).
  set (k := (entropy (rng w) (cursor (rng w)) `mod` 9007199254740992)%N) in *.
  clearbody k. clear HN HP HZ.
  unfold Qle. cbn [Qnum Qden]. split; lia.
Qed.

Lemma random_uniform_spec a b w :
  random_uniform a b w
  = (Ok (fadd a (fmul (fsub b a) (unit_draw w))), advance w).
Proof. reflexivity. Qed.

Lemma randbelow_spec n w :
  randbelow n w
  = (Ok (N.to_nat (entropy (rng w) (cursor (rng w))) `mod` n)%nat, advance w).
Proof. reflexivity. Qed.

Lemma random_choice_spec {A} (seq : list A) w :
  seq ≠ [] →
  ∃ x, x ∈ seq ∧ random_choice seq w = (Ok x, advance w).
Proof.
  intros Hne. destruct seq as [|a seq]; [done|].
  unfold random_choice, bind. rewrite randbelow_spec.
  set (i := (N.to_nat (entropy (rng w) (cursor (rng w)))
             `mod` length (a :: seq))%nat).
  assert (i < length (a :: seq))%nat as Hi.
  { subst i. apply Nat.mod_upper_bound. simpl. lia. }
  destruct (lookup_lt_is_Some_2 _ _ Hi) as [x Hx].
  exists x. rewrite Hx. split; [|done].
  by apply list_elem_of_lookup_2 in Hx.
Qed.

Lemma attacker_techniques_nonempty tag attacker :
  ATTACKER_PERSONAS !! tag = Some attacker → techniques attacker ≠ [].
Proof.
  unfold ATTACKER_PERSONAS. intros H. apply elem_of_list_to_map_2 in H.
  repeat (apply elem_of_cons in H as [[= -> ->]|H]; [done|]).
  by apply elem_of_nil in H.
Qed.

Lemma emit_action_attack now attacker defender w :
  techniques attacker ≠ [] →
  ∃ technique,
    technique ∈ techniques attacker ∧
    emit_action now attacker defender "attack" w
    = (Ok (AttackAction now (attacker_name attacker) technique
             (attacker_name attacker +:+ " launches " +:+ technique +:+ " attack")
             (attacker_threat_level attacker)
             (fadd lit_0_3 (fmul (fsub lit_0_9 lit_0_3) (unit_draw (advance w))))),
       advance (advance w)).
Proof.
  intros Hne. destruct (random_choice_spec (techniques attacker) w Hne)
    as (technique & Hin & Hchoice).
  exists technique. split; [done|].
  unfold emit_action. rewrite decide_True by done.
  unfold bind at 1. rewrite Hchoice. reflexivity.
Qed.

Lemma emit_action_defense now attacker defender action_type w :
  action_type ≠ "attack" →
  emit_action now attacker defender action_type w
  = (Ok (DefenseAction now (defender_name defender) (strategy defender)
           (defender_name defender +:+ " implements " +:+ strategy defender)
           (fadd lit_0_4 (fmul (fsub lit_0_95 lit_0_4) (unit_draw w)))),
     advance w).
Proof.
  intros Hne. unfold emit_action. by rewrite decide_False.
Qed.

(** The draws for [success_probability] and [effectiveness]. *)
Lemma success_probability_range r :
  (0 <= r)%Q → (r <= Qmake (2 ^ 53 - 1) (2 ^ 53))%Q →
  (lit_0_3 <= fadd lit_0_3 (fmul (fsub lit_0_9 lit_0_3) r))%Q ∧
  (fadd lit_0_3 (fmul (fsub lit_0_9 lit_0_3) r) < lit_0_9)%Q.
Proof.
  intros H0 H1.
  destruct (uniform_range lit_0_3 lit_0_9 r (Qmake (2 ^ 53 - 1) (2 ^ 53)))
    as [Hlo Hhi]; [by vm_compute | by vm_compute | done | done |].
  split.
  - eapply Qle_trans; [|exact Hlo]. by vm_compute.
  - eapply Qle_lt_trans; [exact Hhi|]. by vm_compute.
Qed.

Lemma effectiveness_range r :
  (0 <= r)%Q → (r <= Qmake (2 ^ 53 - 1) (2 ^ 53))%Q →
  (lit_0_4 <= fadd lit_0_4 (fmul (fsub lit_0_95 lit_0_4) r))%Q ∧
  (fadd lit_0_4 (fmul (fsub lit_0_95 lit_0_4) r) < lit_0_95)%Q.
Proof.
  intros H0 H1.
  destruct (uniform_range lit_0_4 lit_0_95 r (Qmake (2 ^ 53 - 1) (2 ^ 53)))
    as [Hlo Hhi]; [by vm_compute | by vm_compute | done | done |].
  split.
  - eapply Qle_trans; [|exact Hlo]. by vm_compute.
  - eapply Qle_lt_trans; [exact Hhi|]. by vm_compute.
Qed.

Lemma generate_ai_action_outcome now battle user_input w :
  (∃ key, generate_ai_action now battle user_input w = (Raise (KeyError key), w))
  ∨ (∃ action r,
       generate_ai_action now battle user_input w = (Ok action, set_rng r w)).
Proof.
  unfold generate_ai_action, bind, lookup_persona.
  destruct (ATTACKER_PERSONAS !! attacker_persona battle) as [attacker|] eqn:Hatt;
    [|left; by eexists].
  destruct (DEFENDER_PERSONAS !! defender_persona battle) as [defender|] eqn:Hdef;
    [|left; by eexists].
  right. unfold ret at 1 2.
  destruct (random_choice_spec action_types w) as (label & _ & Hchoice);
    [done|].
  rewrite Hchoice.
  destruct (decide (label = "attack")) as [->|Hne].
  - destruct (emit_action_attack now attacker defender (advance w)
                (attacker_techniques_nonempty _ _ Hatt))
      as (technique & Hin & ->).
    by eexists _, _.
  - rewrite emit_action_defense by done. by eexists _, _.
Qed.

End Generator.

(** C6: for a battle whose two persona tags are keys of the tables,
    [generate_ai_action] returns an action; an attack action carries a
    technique of that attacker persona and a success probability [p] with
    0.3 <= p < 0.9, a defense action an effectiveness [e] with
    0.4 <= e < 0.95, the four bounds being the binary64 values of the
    literals. *)
Theorem generated_action_in_range (now : string) (battle : BattleState)
    (user_input : option json) (attacker : AttackerPersona)
    (defender : DefenderPersona) (w : World) :
  ATTACKER_PERSONAS !! attacker_persona battle = Some attacker →
  DEFENDER_PERSONAS !! defender_persona battle = Some defender →
  ∃ action w',
    generate_ai_action now battle user_input w = (Ok action, w') ∧
    match action with
    | AttackAction _ _ technique _ _ success_probability =>
        technique ∈ techniques attacker ∧
        (lit_0_3 <= success_probability)%Q ∧
        (success_probability < lit_0_9)%Q
    | DefenseAction _ _ _ _ effectiveness =>
        (lit_0_4 <= effectiveness)%Q ∧ (effectiveness < lit_0_95)%Q
    end.
Proof.
  intros Hatt Hdef.
  unfold generate_ai_action, bind, lookup_persona. rewrite Hatt, Hdef.
  unfold ret at 1 2.
  destruct (random_choice_spec action_types w) as (label & _ & Hchoice);
    [done|].
  rewrite Hchoice.
  destruct (decide (label = "attack")) as [->|Hne].
  - destruct (emit_action_attack now attacker defender (advance w)
                (attacker_techniques_nonempty _ _ Hatt))
      as (technique & Hin & ->).
    eexists _, _. split; [done|]. split; [done|].
    apply success_probability_range; apply unit_draw_range.
  - rewrite emit_action_defense by done.
    eexists _, _. split; [done|].
    apply effectiveness_range; apply unit_draw_range.
Qed.

Lemma generated_action_in_range_witness :
  let battle :=
    new_battle (Qmake 6800000001 4) "hospital" "apt_group" "ai_defender" in
  let attacker :=
    mkAttacker "APT Group"
      "Advanced Persistent Threat with sophisticated methods" 7
      ["Zero-day Exploits"; "Living off the Land"; "Supply Chain Attacks"] in
  let defender :=
    mkDefender "AI Defender" "Machine learning powered defense system"
      "Automated threat detection and response" in
  ATTACKER_PERSONAS !! attacker_persona battle = Some attacker ∧
  DEFENDER_PERSONAS !! defender_persona battle = Some defender ∧
  ∃ action w',
    generate_ai_action "2024-01-01T00:00:00" battle None w_hospital
    = (Ok action, w') ∧
    match action with
    | AttackAction _ _ technique _ _ success_probability =>
        technique ∈ techniques attacker ∧
        (lit_0_3 <= success_probability)%Q ∧
        (success_probability < lit_0_9)%Q
    | DefenseAction _ _ _ _ effectiveness =>
        (lit_0_4 <= effectiveness)%Q ∧ (effectiveness < lit_0_95)%Q
    end.
Proof.
  intros battle attacker defender.
  assert (ATTACKER_PERSONAS !! attacker_persona battle = Some attacker)
    as Hatt by (vm_compute; reflexivity).
  assert (DEFENDER_PERSONAS !! defender_persona battle = Some defender)
    as Hdef by (vm_compute; reflexivity).
  split; [exact Hatt|]. split; [exact Hdef|].
  exact (generated_action_in_range "2024-01-01T00:00:00" battle None
           attacker defender w_hospital Hatt Hdef).
Defined.

(** * Session gateway *)

Section Gateway.

Implicit Types (w : World) (websocket : WebSocket) (data : option json).

Lemma handle_text_other_type now data type w :
  message_type data = Some type →
  eq_str type "battle_action" = false →
  handle_text now data w = (Ok tt, w).
Proof.
  intros Hty Hne. destruct data as [[| | | | | |members]|]; try done.
  simpl in Hty. unfold handle_text, bind, ret, subscript. simpl.
  rewrite Hty. simpl. by rewrite Hne.
Qed.

Lemma handle_text_malformed now data w :
  malformed data →
  ∃ e, e ≠ WebSocketDisconnect ∧ handle_text now data w = (Raise e, w).
Proof.
  intros Hbad. unfold handle_text, bind, ret, raise, subscript.
  destruct data as [[| | | | | |members]|]; simpl;
    try (by exists TypeError); try (by exists JSONDecodeError).
  simpl in Hbad. rewrite Hbad. by exists (KeyError "type").
Qed.

(** A turn of the loop either leaves the state as it was, or there is a
    current battle, the turn returns normally, and the state differs by
    the draws taken, one action appended to that battle's log, and one
    broadcast. *)
Lemma handle_text_cases now data w r w' :
  handle_text now data w = (r, w') →
  w' = w
  ∨ ∃ id battle action rg,
      current_battle w = Some (id, battle) ∧
      r = Ok tt ∧
      w' = set_delivered
             (λ d, d ++ deliveries w
                     (battle_action action
                        (set_battle_log (battle_log battle ++ [action]) battle)))
             (set_battles
                (insert id (set_battle_log (battle_log battle ++ [action]) battle))
                (set_rng rg w)).
Proof.
  unfold handle_text, subscript, get_method, bind, ret, raise.
  destruct data as [message|]; cbn beta iota zeta;
    [|intros [= _ <-]; by left].
  destruct message as [| | | | | |members]; cbn beta iota zeta;
    try (intros [= _ <-]; by left).
  destruct (dict_get "type" members) as [type|]; cbn beta iota zeta;
    [|intros [= _ <-]; by left].
  destruct (eq_str type "battle_action"); cbn beta iota zeta;
    [|intros [= _ <-]; by left].
  destruct (current_battle w) as [[id battle]|] eqn:Hcur; cbn beta iota zeta;
    [|intros [= _ <-]; by left].
  destruct (generate_ai_action_outcome now battle
              (dict_get "user_input" members) w)
    as [(key & ->)|(action & rg & ->)]; cbn beta iota zeta.
  - intros [= _ <-]. by left.
  - rewrite broadcast_spec. intros [= <- <-].
    right. by exists id, battle, action, rg.
Qed.

Lemma handle_text_raise_untouched now data w e w' :
  handle_text now data w = (Raise e, w') → w' = w.
Proof.
  intros [?|(? & ? & ? & ? & _ & ? & _)]%handle_text_cases; done.
Qed.

Lemma list_remove_first_app_new websocket (l : list WebSocket) :
  websocket ∉ l → list_remove_first websocket (l ++ [websocket]) = Some l.
Proof.
  induction l as [|y l IH]; intros Hnotin; simpl.
  - by rewrite decide_True.
  - apply not_elem_of_cons in Hnotin as [Hne Hnotin].
    rewrite decide_False by done. by rewrite IH.
Qed.

(** The clean path: on the disconnect signal the handler returns and the
    session is no longer registered. *)
Lemma websocket_endpoint_disconnect websocket w :
  websocket ∉ active_connections w →
  websocket_endpoint websocket [Disconnect] w = (Finished (Ok tt), w).
Proof.
  intros Hnotin. unfold websocket_endpoint, connect, disconnect. simpl.
  rewrite list_remove_first_app_new by done.
  by destruct w.
Qed.

(** Any exception other than the disconnect signal leaves the handler
    with the registry as [connect] left it. *)
Lemma websocket_endpoint_crash websocket now data rest e w w' :
  handle_text now data
    (set_active_connections (λ l, l ++ [websocket]) w) = (Raise e, w') →
  e ≠ WebSocketDisconnect →
  websocket_endpoint websocket (Text now data :: rest) w
  = (Finished (Raise e), w').
Proof.
  intros Hraise Hne. unfold websocket_endpoint, connect. simpl.
  rewrite Hraise. by destruct e.
Qed.

End Gateway.

(** * Reachable states *)

Section Reachable.

Implicit Types (w : World).

Lemma current_is_stored_insert w id battle l :
  current_is_stored w →
  current_is_stored (set_delivered l (set_battles (insert id battle) w)).
Proof.
  unfold current_is_stored. simpl.
  destruct (current_battle_id w) as [i|]; [|done].
  intros [Hne Hsome]. split; [done|].
  rewrite lookup_insert. by case_decide.
Qed.

Lemma step_current_is_stored w w' :
  current_is_stored w → step w w' → current_is_stored w'.
Proof.
  intros Hinv Hstep.
  destruct Hstep as [now sc a d r w' H|opt u r w' H|ws r w' H|ws r w' H
                     |now data r w' H|b].
  - rewrite start_battle_spec in H. injection H as _ <-.
    unfold current_is_stored. simpl. split; [done|].
    by rewrite lookup_insert_eq.
  - destruct (current_battle w) as [[id battle]|] eqn:Hcur.
    + rewrite (cast_vote_current _ _ _ _ _ Hcur) in H. injection H as _ <-.
      by apply current_is_stored_insert.
    + rewrite (cast_vote_none _ _ _ Hcur) in H. by injection H as _ <-.
  - injection H as _ <-. done.
  - unfold disconnect in H.
    destruct (list_remove_first ws (active_connections w));
      by injection H as _ <-.
  - apply handle_text_cases in H as [->|(id & battle & action & rg & _ & _ & ->)];
      [done|].
    by apply (current_is_stored_insert (set_rng rg w)).
  - done.
Qed.

(** In every state the process can reach, the current identifier is the
    key of a stored battle and is not the empty string. *)
Lemma reachable_current_is_stored w : reachable w → current_is_stored w.
Proof.
  induction 1 as [b r|w w' _ IH Hstep]; [done|].
  by apply (step_current_is_stored w).
Qed.

Lemma reachable_current_nonempty w :
  reachable w → current_battle_id w ≠ Some "".
Proof.
  intros Hinv%reachable_current_is_stored Hid.
  unfold current_is_stored in Hinv. rewrite Hid in Hinv. by destruct Hinv.
Qed.

(** So in a reachable state there is no current battle only when none was
    ever started. *)
Lemma reachable_no_current_battle w :
  reachable w → (no_current_battle w ↔ current_battle_id w = None).
Proof.
  intros Hinv%reachable_current_is_stored. split; [|by left].
  intros [Hnone|(id & Hid & Habsent)]; [done|].
  unfold current_is_stored in Hinv. rewrite Hid in Hinv.
  destruct Hinv as [_ [b Hb]]. congruence.
Qed.

End Reachable.

(** C7: a session whose first message does not decode: [json.loads] raises,
    the exception leaves the handler, and the session is still in
    [active_connections] when the handler has finished. *)
Theorem undecodable_message_leaves_session_registered
    (websocket : WebSocket) (now : string) (rest : list frame) (w : World) :
  ∃ w',
    websocket_endpoint websocket (Text now None :: rest) w
    = (Finished (Raise JSONDecodeError), w') ∧
    websocket ∈ active_connections w' ∧
    active_connections w' = active_connections w ++ [websocket].
Proof.
  eexists. split; [|split].
  - by apply websocket_endpoint_crash.
  - simpl. apply elem_of_app. right. by apply list_elem_of_singleton.
  - done.
Qed.

(** C8: a message whose type is anything but "battle_action" is a no-op: the
    turn returns normally with the state as it was.  A malformed payload
    raises in its own handler with the state as it was, so the battle store
    and the delivery record are untouched, and the next broadcast still
    reaches every working session that was registered.  More generally, a
    turn that raises, whatever the payload, leaves the state as it was. *)
Theorem other_types_ignored_malformed_isolated (websocket : WebSocket)
    (now : string) (data : option json) (w : World) :
  (∀ type, message_type data = Some type →
           eq_str type "battle_action" = false →
           handle_text now data w = (Ok tt, w)) ∧
  (malformed data →
     (∃ e, handle_text now data w = (Raise e, w)) ∧
     ∃ e w1,
       websocket_endpoint websocket [Text now data] w
       = (Finished (Raise e), w1) ∧
       battles w1 = battles w ∧
       current_battle_id w1 = current_battle_id w ∧
       delivered w1 = delivered w ∧
       ∀ message, ∃ w2,
         broadcast message w1 = (Ok tt, w2) ∧
         ∀ c, c ∈ active_connections w → broken w !! c = None →
              (c, message) ∈ drop (length (delivered w1)) (delivered w2)) ∧
  (∀ e w', handle_text now data w = (Raise e, w') → w' = w).
Proof.
  split; [|split].
  - intros type. apply handle_text_other_type.
  - intros Hbad. split.
    { destruct (handle_text_malformed now data w Hbad) as (e & _ & He).
      by exists e. }
    destruct (handle_text_malformed now data
                (set_active_connections (λ l, l ++ [websocket]) w) Hbad)
      as (e & Hne & Hraise).
    eexists e, _. split; [by apply websocket_endpoint_crash|].
    repeat split.
    intros message. eexists. split; [apply broadcast_spec|].
    intros c Hin Hok. simpl. rewrite drop_app_length.
    apply elem_of_deliveries. simpl. split; [|done].
    apply elem_of_app. by left.
  - intros e w'. apply handle_text_raise_untouched.
Qed.

Lemma other_types_ignored_malformed_isolated_witness :
  let ping := Some (JObj [("type", JStr "ping")]) in
  let bad := Some (JArr [JStr "battle_action"]) in
  (message_type ping = Some (JStr "ping") ∧
   eq_str (JStr "ping") "battle_action" = false ∧
   handle_text "2024-01-01T00:00:00" ping w_hospital = (Ok tt, w_hospital)) ∧
  (malformed bad ∧
   ∃ e w1,
     websocket_endpoint 4%nat [Text "2024-01-01T00:00:00" bad] w_hospital
     = (Finished (Raise e), w1) ∧
     battles w1 = battles w_hospital ∧
     current_battle_id w1 = current_battle_id w_hospital ∧
     delivered w1 = delivered w_hospital ∧
     ∀ message, ∃ w2,
       broadcast message w1 = (Ok tt, w2) ∧
       ∀ c, c ∈ active_connections w_hospital →
            broken w_hospital !! c = None →
            (c, message) ∈ drop (length (delivered w1)) (delivered w2)).
Proof.
  intros ping bad.
  assert (message_type ping = Some (JStr "ping")) as Hty by reflexivity.
  assert (eq_str (JStr "ping") "battle_action" = false) as Hne
    by reflexivity.
  assert (malformed bad) as Hbad by exact I.
  split.
  - split; [exact Hty|]. split; [exact Hne|].
    exact (proj1 (other_types_ignored_malformed_isolated 4%nat
                    "2024-01-01T00:00:00" ping w_hospital)
             (JStr "ping") Hty Hne).
  - split; [exact Hbad|].
    exact (proj2 (proj1 (proj2 (other_types_ignored_malformed_isolated 4%nat
                                  "2024-01-01T00:00:00" bad w_hospital))
                    Hbad)).
Defined.

(** * A run of the whole: start, two votes, one action *)

Section EndToEnd.

Example started_battle_fields :
  (snd <$> current_battle w_hospital)
  = Some (mkBattleState "battle_1700000000" "hospital" "apt_group"
            "ai_defender" "reconnaissance" 1 ∅ [] true).
Proof. by vm_compute. Qed.

Example two_votes_tally :
  (audience_votes <$> (snd <$> current_battle w_voted))
  = Some {[ "defender" := 2 ]}.
Proof. by vm_compute. Qed.

Example one_action_logged :
  (length <$> (battle_log <$> (snd <$> current_battle w_acted))) = Some 1%nat.
Proof. by vm_compute. Qed.

(** In this run, where nothing else is scheduled during the sends, the two
    reachable viewers, and only they, received the envelope, with the
    one-action log in it. *)
Example one_action_broadcast :
  (λ d, (d.1, match d.2 with
              | battle_action _ b => Some (length (battle_log b))
              | _ => None
              end))
    <$> drop (length (delivered w_voted)) (delivered w_acted)
  = [(1%nat, Some 1%nat); (3%nat, Some 1%nat)].
Proof. by vm_compute. Qed.

(** A session that ends by the disconnect signal is unregistered; one that
    ends by a bad payload is not. *)
Example clean_exit_unregisters :
  active_connections
    (websocket_endpoint 4%nat [Text "2024-01-01T00:00:00" (Some (JObj [("type", JStr "ping")]));
                               Disconnect] w_hospital).2
  = [1; 2; 3]%nat.
Proof. by vm_compute. Qed.

Example bad_payload_stays_registered :
  (websocket_endpoint 4%nat [Text "2024-01-01T00:00:00" (Some (JObj []))]
     w_hospital).1
  = Finished (Raise (KeyError "type")) ∧
  active_connections
    (websocket_endpoint 4%nat [Text "2024-01-01T00:00:00" (Some (JObj []))]
       w_hospital).2
  = [1; 2; 3; 4]%nat.
Proof. by vm_compute. Qed.

End EndToEnd.

(** * Beyond the listed properties: the generator *)

Section GeneratorMore.

Implicit Types (w : World) (battle : BattleState).

Lemma set_rng_set_rng r1 r2 w : set_rng r2 (set_rng r1 w) = set_rng r2 w.
Proof. reflexivity. Qed.

Lemma generate_ai_action_known now battle user_input attacker defender w :
  ATTACKER_PERSONAS !! attacker_persona battle = Some attacker →
  DEFENDER_PERSONAS !! defender_persona battle = Some defender →
  ∃ action r,
    generate_ai_action now battle user_input w = (Ok action, set_rng r w) ∧
    action_wf battle action ∧
    action_timestamp action = now.
Proof.
  intros Hatt Hdef.
  unfold generate_ai_action, bind, lookup_persona. rewrite Hatt, Hdef.
  unfold ret at 1 2.
  destruct (random_choice_spec action_types w) as (label & _ & Hchoice);
    [done|].
  rewrite Hchoice.
  destruct (decide (label = "attack")) as [->|Hne].
  - destruct (emit_action_attack now attacker defender (advance w)
                (attacker_techniques_nonempty _ _ Hatt))
      as (technique & Hin & ->).
    eexists _, _. split; [reflexivity|]. split; [|done].
    exists attacker, defender. split; [done|]. split; [done|].
    split; [done|]. split; [done|]. split; [done|]. split; [done|].
    apply success_probability_range; apply unit_draw_range.
  - rewrite emit_action_defense by done.
    eexists _, _. split; [reflexivity|]. split; [|done].
    exists attacker, defender. split; [done|]. split; [done|].
    split; [done|]. split; [done|]. split; [done|].
    apply effectiveness_range; apply unit_draw_range.
Qed.

Lemma generate_ai_action_no_attacker now battle user_input w :
  ATTACKER_PERSONAS !! attacker_persona battle = None →
  generate_ai_action now battle user_input w
  = (Raise (KeyError (attacker_persona battle)), w).
Proof.
  intros Hatt. unfold generate_ai_action, bind, lookup_persona.
  by rewrite Hatt.
Qed.

Lemma generate_ai_action_no_defender now battle user_input attacker w :
  ATTACKER_PERSONAS !! attacker_persona battle = Some attacker →
  DEFENDER_PERSONAS !! defender_persona battle = None →
  generate_ai_action now battle user_input w
  = (Raise (KeyError (defender_persona battle)), w).
Proof.
  intros Hatt Hdef. unfold generate_ai_action, bind, lookup_persona.
  by rewrite Hatt, Hdef.
Qed.

Lemma reads_only_rng_ret {A} (a : A) : reads_only_rng (ret a).
Proof. by intros w1 w2 Hrng. Qed.

Lemma reads_only_rng_raise {A} e : reads_only_rng (@raise A e).
Proof. by intros w1 w2 Hrng. Qed.

Lemma reads_only_rng_next_raw : reads_only_rng next_raw.
Proof. intros w1 w2 Hrng. unfold next_raw, advance. simpl. by rewrite Hrng. Qed.

Lemma reads_only_rng_bind {A B} (m : M A) (k : A → M B) :
  reads_only_rng m → (∀ a, reads_only_rng (k a)) → reads_only_rng (bind m k).
Proof.
  intros Hm Hk w1 w2 Hrng. unfold bind.
  destruct (Hm w1 w2 Hrng) as [Hres Hrng'].
  destruct (m w1) as [[a1|e1] w1'], (m w2) as [[a2|e2] w2']; simpl in *;
    try discriminate.
  - injection Hres as ->. by apply Hk.
  - by injection Hres as ->.
Qed.

Lemma reads_only_rng_random_choice {A} (seq : list A) :
  reads_only_rng (random_choice seq).
Proof.
  unfold random_choice, randbelow. destruct seq as [|a seq].
  - apply reads_only_rng_raise.
  - apply reads_only_rng_bind.
    + apply reads_only_rng_bind; [apply reads_only_rng_next_raw|].
      intros raw. apply reads_only_rng_ret.
    + intros i. destruct (_ !! _); [apply reads_only_rng_ret|apply reads_only_rng_raise].
Qed.

Lemma reads_only_rng_random_uniform a b : reads_only_rng (random_uniform a b).
Proof.
  unfold random_uniform, random_random.
  repeat (apply reads_only_rng_bind; [|intros ?]);
    first [apply reads_only_rng_next_raw | apply reads_only_rng_ret].
Qed.

Lemma reads_only_rng_generate now b ui : reads_only_rng (generate_ai_action now b ui).
Proof.
  unfold generate_ai_action, lookup_persona.
  apply reads_only_rng_bind.
  { destruct (_ !! _); [apply reads_only_rng_ret|apply reads_only_rng_raise]. }
  intros a. apply reads_only_rng_bind.
  { destruct (_ !! _); [apply reads_only_rng_ret|apply reads_only_rng_raise]. }
  intros d. apply reads_only_rng_bind; [apply reads_only_rng_random_choice|].
  intros label. unfold emit_action. case_decide.
  - apply reads_only_rng_bind; [apply reads_only_rng_random_choice|].
    intros t. apply reads_only_rng_bind; [apply reads_only_rng_random_uniform|].
    intros p. apply reads_only_rng_ret.
  - apply reads_only_rng_bind; [apply reads_only_rng_random_uniform|].
    intros p. apply reads_only_rng_ret.
Qed.

End GeneratorMore.

(** X1: [generate_ai_action] looks the attacker tag up first: an unknown
    attacker tag raises [KeyError] with that tag, a known attacker with an
    unknown defender tag raises [KeyError] with the defender tag, and in
    both cases nothing is drawn and the state is as it was.  It raises in no
    other case, and when it returns the state differs at most in the random
    generator. *)
Theorem generate_ai_action_errors (now : string) (battle : BattleState)
    (user_input : option json) (w : World) :
  (ATTACKER_PERSONAS !! attacker_persona battle = None →
     generate_ai_action now battle user_input w
     = (Raise (KeyError (attacker_persona battle)), w)) ∧
  (is_Some (ATTACKER_PERSONAS !! attacker_persona battle) →
   DEFENDER_PERSONAS !! defender_persona battle = None →
     generate_ai_action now battle user_input w
     = (Raise (KeyError (defender_persona battle)), w)) ∧
  (∀ e w', generate_ai_action now battle user_input w = (Raise e, w') →
     w' = w ∧
     (e = KeyError (attacker_persona battle)
      ∨ e = KeyError (defender_persona battle))) ∧
  (∀ action w', generate_ai_action now battle user_input w = (Ok action, w') →
     ∃ r, w' = set_rng r w).
Proof.
  split; [apply generate_ai_action_no_attacker|].
  split.
  { intros [attacker Hatt] Hdef.
    by apply (generate_ai_action_no_defender _ _ _ attacker). }
  destruct (ATTACKER_PERSONAS !! attacker_persona battle) as [attacker|] eqn:Hatt.
  - destruct (DEFENDER_PERSONAS !! defender_persona battle) as [defender|] eqn:Hdef.
    + destruct (generate_ai_action_known now battle user_input attacker defender
                  w Hatt Hdef) as (action & r & -> & _).
      split; [discriminate|]. intros a w' [= _ <-]. by exists r.
    + rewrite (generate_ai_action_no_defender _ _ _ _ _ Hatt Hdef).
      split; [|discriminate]. intros e w' [= <- <-]. split; [done|by right].
  - rewrite (generate_ai_action_no_attacker _ _ _ _ Hatt).
    split; [|discriminate]. intros e w' [= <- <-]. split; [done|by left].
Qed.

Lemma generate_ai_action_errors_witness :
  let battle := new_battle 0%Q "hospital" "apt_group" "firewall" in
  is_Some (ATTACKER_PERSONAS !! attacker_persona battle) ∧
  DEFENDER_PERSONAS !! defender_persona battle = None ∧
  generate_ai_action "2024-01-01T00:00:00" battle None w_idle
  = (Raise (KeyError "firewall"), w_idle).
Proof.
  intros battle.
  assert (is_Some (ATTACKER_PERSONAS !! attacker_persona battle)) as Hatt
    by (vm_compute; eauto).
  assert (DEFENDER_PERSONAS !! defender_persona battle = None) as Hdef
    by (vm_compute; reflexivity).
  split; [exact Hatt|]. split; [exact Hdef|].
  exact (proj1 (proj2 (generate_ai_action_errors "2024-01-01T00:00:00" battle
                         None w_idle)) Hatt Hdef).
Defined.

(** X2: what [generate_ai_action] returns depends only on the battle's two
    persona tags, the clock reading and the random generator: two battles
    with the same tags, in two states with the same generator, give the
    same action (or the same error) and leave the same generator, whatever
    the tallies, logs, scenarios, identifiers, stored battles, registry and
    viewer input. *)
Theorem generate_ai_action_reads_only_personas (now : string)
    (battle1 battle2 : BattleState) (user_input1 user_input2 : option json)
    (w1 w2 : World) :
  attacker_persona battle1 = attacker_persona battle2 →
  defender_persona battle1 = defender_persona battle2 →
  rng w1 = rng w2 →
  (generate_ai_action now battle1 user_input1 w1).1
  = (generate_ai_action now battle2 user_input2 w2).1 ∧
  rng (generate_ai_action now battle1 user_input1 w1).2
  = rng (generate_ai_action now battle2 user_input2 w2).2.
Proof.
  intros Hatt Hdef Hrng.
  assert (generate_ai_action now battle1 user_input1
          = generate_ai_action now battle2 user_input2) as ->.
  { unfold generate_ai_action. by rewrite Hatt, Hdef. }
  by apply reads_only_rng_generate.
Qed.

Lemma generate_ai_action_reads_only_personas_witness :
  let battle1 := new_battle 0%Q "hospital" "apt_group" "ai_defender" in
  let battle2 :=
    set_audience_votes {[ "attacker" := 40 ]}
      (new_battle (Qmake 5 1) "banking" "apt_group" "ai_defender") in
  attacker_persona battle1 = attacker_persona battle2 ∧
  defender_persona battle1 = defender_persona battle2 ∧
  rng w_idle = rng w_voted ∧
  (generate_ai_action "2024-01-01T00:00:00" battle1 None w_idle).1
  = (generate_ai_action "2024-01-01T00:00:00" battle2
       (Some (JStr "attack!")) w_voted).1.
Proof.
  intros battle1 battle2.
  assert (attacker_persona battle1 = attacker_persona battle2) as Hatt
    by reflexivity.
  assert (defender_persona battle1 = defender_persona battle2) as Hdef
    by reflexivity.
  assert (rng w_idle = rng w_voted) as Hrng by reflexivity.
  split; [exact Hatt|]. split; [exact Hdef|]. split; [exact Hrng|].
  exact (proj1 (generate_ai_action_reads_only_personas "2024-01-01T00:00:00"
                  battle1 battle2 None (Some (JStr "attack!")) w_idle w_voted
                  Hatt Hdef Hrng)).
Defined.

(** * Beyond the listed properties: one turn of a session *)

Section TurnMore.

Implicit Types (w : World) (battle : BattleState).

(** The turn for a [battle_action] message is the generator followed by the
    append and the broadcast. *)
Lemma handle_text_battle_action now members w id battle :
  is_battle_action members →
  current_battle w = Some (id, battle) →
  handle_text now (Some (JObj members)) w
  = match generate_ai_action now battle (dict_get "user_input" members) w with
    | (Ok action, w1) =>
        (Ok tt,
         set_delivered
           (λ d, d ++ deliveries w1
                   (battle_action action
                      (set_battle_log (battle_log battle ++ [action]) battle)))
           (set_battles
              (insert id (set_battle_log (battle_log battle ++ [action]) battle))
              w1))
    | (Raise e, w1) => (Raise e, w1)
    end.
Proof.
  intros (type & Hty & Heq) Hcur.
  unfold handle_text, subscript, get_method, bind, ret, raise.
  cbn beta iota zeta. rewrite Hty. cbn beta iota zeta. rewrite Heq, Hcur.
  cbn beta iota zeta.
  destruct (generate_ai_action now battle (dict_get "user_input" members) w)
    as [[action|e] w1]; [|done].
  cbn beta iota zeta. by rewrite broadcast_spec.
Qed.

Lemma handle_text_no_battle now members w :
  is_battle_action members →
  current_battle w = None →
  handle_text now (Some (JObj members)) w = (Ok tt, w).
Proof.
  intros (type & Hty & Heq) Hcur.
  unfold handle_text, subscript, bind, ret, raise.
  cbn beta iota zeta. rewrite Hty. cbn beta iota zeta. by rewrite Heq, Hcur.
Qed.

(** As [handle_text_cases], with what is known of the appended action. *)
Lemma handle_text_effect now data w r w' :
  handle_text now data w = (r, w') →
  w' = w
  ∨ ∃ id battle action rg,
      current_battle w = Some (id, battle) ∧
      r = Ok tt ∧
      action_wf battle action ∧
      w' = set_delivered
             (λ d, d ++ deliveries w
                     (battle_action action
                        (set_battle_log (battle_log battle ++ [action]) battle)))
             (set_battles
                (insert id (set_battle_log (battle_log battle ++ [action]) battle))
                (set_rng rg w)).
Proof.
  unfold handle_text, subscript, get_method, bind, ret, raise.
  destruct data as [message|]; cbn beta iota zeta;
    [|intros [= _ <-]; by left].
  destruct message as [| | | | | |members]; cbn beta iota zeta;
    try (intros [= _ <-]; by left).
  destruct (dict_get "type" members) as [type|]; cbn beta iota zeta;
    [|intros [= _ <-]; by left].
  destruct (eq_str type "battle_action"); cbn beta iota zeta;
    [|intros [= _ <-]; by left].
  destruct (current_battle w) as [[id battle]|] eqn:Hcur; cbn beta iota zeta;
    [|intros [= _ <-]; by left].
  destruct (ATTACKER_PERSONAS !! attacker_persona battle) as [attacker|] eqn:Hatt;
    [|rewrite (generate_ai_action_no_attacker _ _ _ _ Hatt);
      intros [= _ <-]; by left].
  destruct (DEFENDER_PERSONAS !! defender_persona battle) as [defender|] eqn:Hdef;
    [|rewrite (generate_ai_action_no_defender _ _ _ _ _ Hatt Hdef);
      intros [= _ <-]; by left].
  destruct (generate_ai_action_known now battle (dict_get "user_input" members)
              attacker defender w Hatt Hdef) as (action & rg & -> & Hwf & _).
  cbn beta iota zeta. rewrite broadcast_spec. intros [= <- <-].
  right. by exists id, battle, action, rg.
Qed.

End TurnMore.

Lemma random_choice_action_types w label :
  chosen_label w = Some label →
  random_choice action_types w = (Ok label, advance w).
Proof.
  unfold chosen_label. intros Hlabel.
  unfold random_choice, action_types, bind. rewrite randbelow_spec.
  fold action_types. by rewrite Hlabel.
Qed.

(** C9: when [random.choice] picks a label other than "attack", whichever
    of the other three it is, [generate_ai_action] returns the same defense
    action: timestamp the clock reading, actor and strategy those of the
    battle's defender persona, description made of the two, effectiveness
    the next uniform draw; the label itself leaves no trace.  The viewer's
    input changes nothing: neither the value passed to the generator nor
    the ["user_input"] member of the message has any effect on the turn. *)
Theorem non_attack_labels_collapse (now : string) (battle : BattleState)
    (attacker : AttackerPersona) (defender : DefenderPersona)
    (label : string) (user_input : option json) (w : World) :
  ATTACKER_PERSONAS !! attacker_persona battle = Some attacker →
  DEFENDER_PERSONAS !! defender_persona battle = Some defender →
  chosen_label w = Some label →
  label ≠ "attack" →
  generate_ai_action now battle user_input w
  = (Ok (DefenseAction now (defender_name defender) (strategy defender)
           (defender_name defender +:+ " implements " +:+ strategy defender)
           (fadd lit_0_4
              (fmul (fsub lit_0_95 lit_0_4) (unit_draw (advance w))))),
     advance (advance w)) ∧
  (∀ user_input', generate_ai_action now battle user_input' w
                  = generate_ai_action now battle user_input w) ∧
  (∀ members1 members2 w',
     is_battle_action members1 → is_battle_action members2 →
     handle_text now (Some (JObj members1)) w'
     = handle_text now (Some (JObj members2)) w').
Proof.
  intros Hatt Hdef Hlabel Hne. split; [|split].
  - unfold generate_ai_action, bind, lookup_persona. rewrite Hatt, Hdef.
    unfold ret at 1 2. rewrite (random_choice_action_types _ _ Hlabel).
    by rewrite emit_action_defense.
  - done.
  - intros members1 members2 w' Hm1 Hm2.
    destruct (current_battle w') as [[id b]|] eqn:Hcur.
    + rewrite (handle_text_battle_action _ _ _ _ _ Hm1 Hcur).
      rewrite (handle_text_battle_action _ _ _ _ _ Hm2 Hcur).
      done.
    + rewrite (handle_text_no_battle _ _ _ Hm1 Hcur).
      by rewrite (handle_text_no_battle _ _ _ Hm2 Hcur).
Qed.

Lemma non_attack_labels_collapse_witness :
  let battle :=
    new_battle (Qmake 6800000001 4) "hospital" "apt_group" "ai_defender" in
  let attacker :=
    mkAttacker "APT Group"
      "Advanced Persistent Threat with sophisticated methods" 7
      ["Zero-day Exploits"; "Living off the Land"; "Supply Chain Attacks"] in
  let defender :=
    mkDefender "AI Defender" "Machine learning powered defense system"
      "Automated threat detection and response" in
  let w := advance (advance (advance w_hospital)) in
  ATTACKER_PERSONAS !! attacker_persona battle = Some attacker ∧
  DEFENDER_PERSONAS !! defender_persona battle = Some defender ∧
  chosen_label w = Some "escalation" ∧
  "escalation" ≠ "attack" ∧
  generate_ai_action "2024-01-01T00:00:00" battle (Some (JStr "strike now")) w
  = (Ok (DefenseAction "2024-01-01T00:00:00" "AI Defender"
           "Automated threat detection and response"
           "AI Defender implements Automated threat detection and response"
           (fadd lit_0_4
              (fmul (fsub lit_0_95 lit_0_4) (unit_draw (advance w))))),
     advance (advance w)).
Proof.
  intros battle attacker defender w.
  assert (ATTACKER_PERSONAS !! attacker_persona battle = Some attacker)
    as Hatt by (vm_compute; reflexivity).
  assert (DEFENDER_PERSONAS !! defender_persona battle = Some defender)
    as Hdef by (vm_compute; reflexivity).
  assert (chosen_label w = Some "escalation") as Hlabel by reflexivity.
  assert ("escalation" ≠ "attack") as Hne by discriminate.
  split; [exact Hatt|]. split; [exact Hdef|]. split; [exact Hlabel|].
  split; [exact Hne|].
  exact (proj1 (non_attack_labels_collapse "2024-01-01T00:00:00" battle
                  attacker defender "escalation" (Some (JStr "strike now")) w
                  Hatt Hdef Hlabel Hne)).
Defined.


Lemma current_battle_after_start now scenario attacker defender w :
  current_battle (start_battle now scenario attacker defender w).2
  = Some (battle_id (new_battle now scenario attacker defender),
          new_battle now scenario attacker defender).
Proof.
  rewrite start_battle_spec. apply current_battle_Some. simpl.
  by rewrite lookup_insert_eq.
Qed.

(** Each of the three other labels does get picked. *)
Example other_labels_are_picked :
  chosen_label w_hospital = Some "attack" ∧
  chosen_label (advance w_hospital) = Some "defend" ∧
  chosen_label (advance (advance w_hospital)) = Some "reconnaissance" ∧
  chosen_label (advance (advance (advance w_hospital))) = Some "escalation".
Proof. by vm_compute. Qed.

(** X3: a [battle_action] message, when there is a current battle whose two
    persona tags are known, returns normally.  The turn generates one
    action, one the battle's personas can produce and stamped with the clock
    reading, appends it at the end of that battle's log, leaving its tally,
    its other fields and every other battle as they were, and ends with the
    broadcast of a [battle_action] envelope that carries that action and the
    battle as updated. *)
Theorem battle_action_turn (now : string) (members : list (string * json))
    (w : World) (id : string) (battle : BattleState)
    (attacker : AttackerPersona) (defender : DefenderPersona) :
  is_battle_action members →
  current_battle w = Some (id, battle) →
  ATTACKER_PERSONAS !! attacker_persona battle = Some attacker →
  DEFENDER_PERSONAS !! defender_persona battle = Some defender →
  ∃ action r w',
    handle_text now (Some (JObj members)) w = (Ok tt, w') ∧
    action_wf battle action ∧
    action_timestamp action = now ∧
    handle_text now (Some (JObj members)) w
    = broadcast
        (battle_action action
           (set_battle_log (battle_log battle ++ [action]) battle))
        (set_battles
           (insert id (set_battle_log (battle_log battle ++ [action]) battle))
           (set_rng r w)) ∧
    battles w'
    = <[id := set_battle_log (battle_log battle ++ [action]) battle]> (battles w) ∧
    current_battle_id w' = current_battle_id w.
Proof.
  intros Hmsg Hcur Hatt Hdef.
  rewrite (handle_text_battle_action _ _ _ _ _ Hmsg Hcur).
  destruct (generate_ai_action_known now battle (dict_get "user_input" members)
              attacker defender w Hatt Hdef) as (action & rg & -> & Hwf & Hts).
  eexists action, rg, _. split; [done|]. split; [done|]. split; [done|].
  split; [by rewrite broadcast_spec|]. done.
Qed.

Lemma battle_action_turn_witness :
  let members := [("type", JStr "battle_action"); ("user_input", JStr "go")] in
  let battle :=
    new_battle (Qmake 6800000001 4) "hospital" "apt_group" "ai_defender" in
  let attacker :=
    mkAttacker "APT Group"
      "Advanced Persistent Threat with sophisticated methods" 7
      ["Zero-day Exploits"; "Living off the Land"; "Supply Chain Attacks"] in
  let defender :=
    mkDefender "AI Defender" "Machine learning powered defense system"
      "Automated threat detection and response" in
  is_battle_action members ∧
  current_battle w_hospital = Some ("battle_1700000000", battle) ∧
  ATTACKER_PERSONAS !! attacker_persona battle = Some attacker ∧
  DEFENDER_PERSONAS !! defender_persona battle = Some defender ∧
  ∃ action r w',
    handle_text "2024-01-01T00:00:00" (Some (JObj members)) w_hospital
    = (Ok tt, w') ∧
    action_wf battle action ∧
    action_timestamp action = "2024-01-01T00:00:00" ∧
    handle_text "2024-01-01T00:00:00" (Some (JObj members)) w_hospital
    = broadcast
        (battle_action action
           (set_battle_log (battle_log battle ++ [action]) battle))
        (set_battles
           (insert "battle_1700000000"
              (set_battle_log (battle_log battle ++ [action]) battle))
           (set_rng r w_hospital)) ∧
    battles w'
    = <["battle_1700000000" :=
          set_battle_log (battle_log battle ++ [action]) battle]>
        (battles w_hospital) ∧
    current_battle_id w' = current_battle_id w_hospital.
Proof.
  intros members battle attacker defender.
  assert (is_battle_action members) as Hmsg
    by (exists (JStr "battle_action"); split; reflexivity).
  assert (current_battle w_hospital = Some ("battle_1700000000", battle))
    as Hcur by (vm_compute; reflexivity).
  assert (ATTACKER_PERSONAS !! attacker_persona battle = Some attacker)
    as Hatt by (vm_compute; reflexivity).
  assert (DEFENDER_PERSONAS !! defender_persona battle = Some defender)
    as Hdef by (vm_compute; reflexivity).
  split; [exact Hmsg|]. split; [exact Hcur|].
  split; [exact Hatt|]. split; [exact Hdef|].
  exact (battle_action_turn "2024-01-01T00:00:00" members w_hospital
           "battle_1700000000" battle attacker defender Hmsg Hcur Hatt Hdef).
Defined.

(** X4: a [battle_action] message that arrives when no battle is current is
    swallowed: the turn returns normally, nothing is drawn, stored or
    sent. *)
Theorem battle_action_without_battle (now : string)
    (members : list (string * json)) (w : World) :
  is_battle_action members →
  current_battle w = None →
  handle_text now (Some (JObj members)) w = (Ok tt, w).
Proof. intros Hmsg Hcur. by apply handle_text_no_battle. Qed.

Lemma battle_action_without_battle_witness :
  is_battle_action [("type", JStr "battle_action")] ∧
  current_battle w_idle = None ∧
  handle_text "2024-01-01T00:00:00"
    (Some (JObj [("type", JStr "battle_action")])) w_idle
  = (Ok tt, w_idle).
Proof.
  assert (is_battle_action [("type", JStr "battle_action")]) as Hmsg
    by (exists (JStr "battle_action"); split; reflexivity).
  assert (current_battle w_idle = None) as Hcur by reflexivity.
  split; [exact Hmsg|]. split; [exact Hcur|].
  exact (battle_action_without_battle "2024-01-01T00:00:00"
           [("type", JStr "battle_action")] w_idle Hmsg Hcur).
Defined.

(** X5: [start_battle] does not check its tags.  With an attacker or a
    defender tag that is not in the tables it still returns a battle and
    makes it current; from then on every [battle_action] message raises
    [KeyError] on that tag in the session that sent it, with the state as it
    was, so the log stays empty, nothing is broadcast, and that session's
    handler ends with the session still registered. *)
Theorem unknown_persona_accepted_then_raises (now : float)
    (scenario attacker defender : string) (now' : string)
    (members : list (string * json)) (websocket : WebSocket) (w : World) :
  is_battle_action members →
  ATTACKER_PERSONAS !! attacker = None
  ∨ DEFENDER_PERSONAS !! defender = None →
  ∃ response w1 key,
    start_battle now scenario attacker defender w = (Ok response, w1) ∧
    (snd <$> current_battle w1) = Some (start_battle_state response) ∧
    (key = attacker ∨ key = defender) ∧
    handle_text now' (Some (JObj members)) w1 = (Raise (KeyError key), w1) ∧
    websocket_endpoint websocket [Text now' (Some (JObj members))] w1
    = (Finished (Raise (KeyError key)),
       set_active_connections (λ l, l ++ [websocket]) w1).
Proof.
  intros Hmsg Hunknown.
  pose proof (start_battle_spec now scenario attacker defender w) as Hstart.
  pose proof (current_battle_after_start now scenario attacker defender w)
    as Hcur.
  simpl in Hstart. rewrite Hstart in Hcur. simpl in Hcur.
  set (battle := new_battle now scenario attacker defender) in *.
  assert (∃ key, (key = attacker ∨ key = defender) ∧
            ∀ w2, generate_ai_action now' battle
                    (dict_get "user_input" members) w2
                  = (Raise (KeyError key), w2)) as (key & Hkey & Hgen).
  { destruct (ATTACKER_PERSONAS !! attacker) as [a|] eqn:Hatt.
    - destruct Hunknown as [?|Hdef]; [done|].
      exists defender. split; [by right|]. intros w2.
      exact (generate_ai_action_no_defender now' battle _ a w2 Hatt Hdef).
    - exists attacker. split; [by left|]. intros w2.
      exact (generate_ai_action_no_attacker now' battle _ w2 Hatt). }
  eexists _, _, key. split; [exact Hstart|].
  split; [by rewrite Hcur|]. split; [exact Hkey|].
  assert (∀ w2, current_battle w2 = Some (battle_id battle, battle) →
            handle_text now' (Some (JObj members)) w2
            = (Raise (KeyError key), w2)) as Hturn.
  { intros w2 Hcur2.
    rewrite (handle_text_battle_action _ _ _ _ _ Hmsg Hcur2). by rewrite Hgen. }
  split; [by apply Hturn|].
  apply websocket_endpoint_crash; [|done].
  apply Hturn. apply current_battle_Some. apply current_battle_Some in Hcur.
  exact Hcur.
Qed.

Lemma unknown_persona_accepted_then_raises_witness :
  let members := [("type", JStr "battle_action")] in
  is_battle_action members ∧
  (ATTACKER_PERSONAS !! "hacker" = None
   ∨ DEFENDER_PERSONAS !! "ai_defender" = None) ∧
  ∃ response w1 key,
    start_battle 0%Q "hospital" "hacker" "ai_defender" w_idle
    = (Ok response, w1) ∧
    (snd <$> current_battle w1) = Some (start_battle_state response) ∧
    (key = "hacker" ∨ key = "ai_defender") ∧
    handle_text "2024-01-01T00:00:00" (Some (JObj members)) w1
    = (Raise (KeyError key), w1) ∧
    websocket_endpoint 4%nat [Text "2024-01-01T00:00:00" (Some (JObj members))]
      w1
    = (Finished (Raise (KeyError key)),
       set_active_connections (λ l, l ++ [4%nat]) w1).
Proof.
  intros members.
  assert (is_battle_action members) as Hmsg
    by (exists (JStr "battle_action"); split; reflexivity).
  assert (ATTACKER_PERSONAS !! "hacker" = None
          ∨ DEFENDER_PERSONAS !! "ai_defender" = None) as Hunknown
    by (left; vm_compute; reflexivity).
  split; [exact Hmsg|]. split; [exact Hunknown|].
  exact (unknown_persona_accepted_then_raises 0%Q "hospital" "hacker"
           "ai_defender" "2024-01-01T00:00:00" members 4%nat w_idle
           Hmsg Hunknown).
Defined.

(** * Beyond the listed properties: the registry and a whole session *)

Section RegistryMore.

Implicit Types (w : World) (websocket c : WebSocket) (l : list WebSocket).

Lemma list_remove_first_None websocket l :
  list_remove_first websocket l = None ↔ websocket ∉ l.
Proof.
  induction l as [|y l IH]; simpl.
  - split; [intros _; apply not_elem_of_nil|done].
  - rewrite not_elem_of_cons. destruct (decide (websocket = y)) as [->|Hne].
    + split; [done|]. by intros [? _].
    + destruct (list_remove_first websocket l) as [l'|]; simpl.
      * split; [done|]. intros [_ Hnotin]. by apply IH in Hnotin.
      * split; [|done]. intros _. split; [done|]. by apply IH.
Qed.

Lemma list_remove_first_Some websocket l l' :
  list_remove_first websocket l = Some l' ↔
  ∃ l1 l2, l = l1 ++ (websocket :: l2) ∧ (websocket ∉ l1) ∧ l' = l1 ++ l2.
Proof.
  revert l'. induction l as [|y l IH]; intros l'; simpl.
  - split; [done|]. intros (l1 & l2 & Heq & _). by destruct l1.
  - destruct (decide (websocket = y)) as [->|Hne].
    + split.
      * intros [= <-]. exists [], l. split; [done|].
        split; [apply not_elem_of_nil|done].
      * intros (l1 & l2 & Heq & Hnotin & ->).
        destruct l1 as [|z l1]; [by injection Heq as <-|].
        injection Heq as <- _. exfalso. apply Hnotin. by left.
    + split.
      * destruct (list_remove_first websocket l) as [k|]; [|done].
        simpl. intros [= <-].
        destruct (proj1 (IH k) eq_refl) as (l1 & l2 & -> & Hnotin & ->).
        exists (y :: l1), l2. split; [done|]. split; [|done].
        apply not_elem_of_cons. done.
      * intros (l1 & l2 & Heq & Hnotin & ->).
        destruct l1 as [|z l1]; [by injection Heq as ->|].
        injection Heq as <- ->.
        apply not_elem_of_cons in Hnotin as [_ Hnotin].
        rewrite (proj2 (IH (l1 ++ l2))); [done|].
        by exists l1, l2.
Qed.

Lemma list_remove_first_others websocket l l' :
  list_remove_first websocket l = Some l' →
  filter (λ c, c ≠ websocket) l' = filter (λ c, c ≠ websocket) l.
Proof.
  intros (l1 & l2 & -> & _ & ->)%list_remove_first_Some.
  rewrite !filter_app, filter_cons_False; [done|]. by intros ?.
Qed.

Lemma handle_text_registry now data w r w' :
  handle_text now data w = (r, w') →
  active_connections w' = active_connections w ∧
  broken w' = broken w ∧
  current_battle_id w' = current_battle_id w.
Proof.
  intros [->|(id & battle & action & rg & _ & _ & ->)]%handle_text_cases; done.
Qed.

Lemma receive_loop_registry frames w exit w' :
  receive_loop frames w = (exit, w') →
  active_connections w' = active_connections w.
Proof.
  revert w. induction frames as [|[|now data] frames IH]; intros w; simpl.
  - by intros [= _ <-].
  - by intros [= _ <-].
  - destruct (handle_text now data w) as [[[]|e] w1] eqn:Hturn.
    + intros Hloop. rewrite (IH _ Hloop).
      by apply handle_text_registry in Hturn as [? _].
    + intros [= _ <-]. by apply handle_text_registry in Hturn as [? _].
Qed.

(** Frames are handled in turn: what follows an exception or the
    disconnect signal is never looked at. *)
Lemma receive_loop_app frames1 frames2 w :
  receive_loop (frames1 ++ frames2) w
  = match receive_loop frames1 w with
    | (None, w1) => receive_loop frames2 w1
    | (Some e, w1) => (Some e, w1)
    end.
Proof.
  revert w. induction frames1 as [|[|now data] frames1 IH]; intros w; simpl;
    [done..|].
  destruct (handle_text now data w) as [[[]|e] w1]; [apply IH|done].
Qed.

Lemma deliveries_nil w message :
  deliveries w message = [] ↔
  ∀ c, c ∈ active_connections w → is_Some (broken w !! c).
Proof.
  unfold deliveries. split.
  - intros Hnil%fmap_nil_inv c Hin.
    destruct (broken w !! c) eqn:Hc; [done|].
    exfalso. by apply (filter_nil_not_elem_of _ _ c Hnil).
  - intros Hall.
    assert (filter (λ c, broken w !! c = None) (active_connections w) = [])
      as ->; [|done].
    induction (active_connections w) as [|c l IH]; [done|].
    rewrite filter_cons_False.
    + apply IH. intros c' Hin. apply Hall. by right.
    + intros Hnone. destruct (Hall c) as [e He]; [by left|]. congruence.
Qed.

End RegistryMore.

(** X6: [disconnect] raises [ValueError] and changes nothing when the
    session is not registered; otherwise it removes the first registration
    of that session and nothing else: the sessions before and after it keep
    their places, and a second registration of the same session stays. *)
Theorem disconnect_removes_first_registration (websocket : WebSocket)
    (w : World) :
  (websocket ∉ active_connections w →
     disconnect websocket w = (Raise ValueError, w)) ∧
  (websocket ∈ active_connections w →
     ∃ l1 l2,
       active_connections w = l1 ++ (websocket :: l2) ∧
       (websocket ∉ l1) ∧
       disconnect websocket w
       = (Ok tt, set_active_connections (λ _, l1 ++ l2) w)).
Proof.
  unfold disconnect. split.
  - intros Hnotin%list_remove_first_None. by rewrite Hnotin.
  - intros Hin.
    destruct (list_remove_first websocket (active_connections w)) as [l'|]
      eqn:Hrem.
    + apply list_remove_first_Some in Hrem as (l1 & l2 & Heq & Hnotin & ->).
      by exists l1, l2.
    + apply list_remove_first_None in Hrem. done.
Qed.

Lemma disconnect_removes_first_registration_witness :
  let w := set_active_connections (λ _, [1; 2; 3; 2]%nat) w_idle in
  ((9%nat ∉ active_connections w) ∧
   disconnect 9%nat w = (Raise ValueError, w)) ∧
  ((2%nat ∈ active_connections w) ∧
   ∃ l1 l2,
     active_connections w = l1 ++ (2%nat :: l2) ∧
     (2%nat ∉ l1) ∧
     disconnect 2%nat w = (Ok tt, set_active_connections (λ _, l1 ++ l2) w)).
Proof.
  intros w.
  assert (9%nat ∉ active_connections w) as Hnotin
    by (apply (bool_decide_unpack _); vm_compute; exact I).
  assert (2%nat ∈ active_connections w) as Hin
    by (apply (bool_decide_unpack _); vm_compute; exact I).
  split.
  - split; [exact Hnotin|].
    exact (proj1 (disconnect_removes_first_registration 9%nat w) Hnotin).
  - split; [exact Hin|].
    exact (proj2 (disconnect_removes_first_registration 2%nat w) Hin).
Defined.

(** X7: whatever frames a session receives, its handler leaves the
    registrations of all other sessions as they were, in number and order.
    If the handler returns normally the session's own registration is gone
    (the registry is as before when the session was not registered twice);
    in every other outcome, waiting or ended by an exception, the session is
    registered, at the end of the list. *)
Theorem session_registry_effect (websocket : WebSocket)
    (frames : list frame) (w : World) :
  ∃ status w',
    websocket_endpoint websocket frames w = (status, w') ∧
    filter (λ c, c ≠ websocket) (active_connections w')
    = filter (λ c, c ≠ websocket) (active_connections w) ∧
    (status = Finished (Ok tt) → websocket ∉ active_connections w →
       active_connections w' = active_connections w) ∧
    (status ≠ Finished (Ok tt) →
       active_connections w' = active_connections w ++ [websocket]).
Proof.
  unfold websocket_endpoint, connect.
  destruct (receive_loop frames
              (set_active_connections (λ l, l ++ [websocket]) w))
    as [exit w2] eqn:Hloop.
  pose proof (receive_loop_registry _ _ _ _ Hloop) as Hreg. simpl in Hreg.
  assert (filter (λ c, c ≠ websocket) (active_connections w ++ [websocket])
          = filter (λ c, c ≠ websocket) (active_connections w)) as Hothers.
  { rewrite filter_app, filter_cons_False, app_nil_r; [done|]. by intros ?. }
  assert (∀ e, e ≠ WebSocketDisconnect →
            ∃ status w',
              (Finished (Raise e), w2) = (status, w') ∧
              filter (λ c, c ≠ websocket) (active_connections w')
              = filter (λ c, c ≠ websocket) (active_connections w) ∧
              (status = Finished (Ok tt) → websocket ∉ active_connections w →
                 active_connections w' = active_connections w) ∧
              (status ≠ Finished (Ok tt) →
                 active_connections w' = active_connections w ++ [websocket]))
    as Hcrash.
  { intros e _. eexists _, _. split; [done|]. rewrite Hreg.
    split; [done|]. split; [discriminate|done]. }
  destruct exit as [e|].
  - destruct e; try (apply Hcrash; discriminate).
    unfold disconnect. rewrite Hreg.
    destruct (list_remove_first websocket (active_connections w ++ [websocket]))
      as [l'|] eqn:Hrem.
    + eexists _, _. split; [done|]. simpl.
      split; [by rewrite (list_remove_first_others _ _ _ Hrem)|].
      split; [|done]. intros _ Hnotin.
      rewrite (list_remove_first_app_new _ _ Hnotin) in Hrem. congruence.
    + apply list_remove_first_None in Hrem. exfalso. apply Hrem.
      apply elem_of_app. right. by left.
  - eexists _, _. split; [done|]. rewrite Hreg.
    split; [done|]. split; [discriminate|done].
Qed.

Lemma session_registry_effect_witness :
  let frames :=
    [Text "2024-01-01T00:00:00" (Some (JObj [("type", JStr "battle_action")]));
     Disconnect] in
  (websocket_endpoint 4%nat frames w_hospital).1 = Finished (Ok tt) ∧
  (4%nat ∉ active_connections w_hospital) ∧
  active_connections (websocket_endpoint 4%nat frames w_hospital).2
  = active_connections w_hospital.
Proof.
  intros frames.
  assert ((websocket_endpoint 4%nat frames w_hospital).1 = Finished (Ok tt))
    as Hstatus by (vm_compute; reflexivity).
  assert (4%nat ∉ active_connections w_hospital) as Hnotin
    by (apply (bool_decide_unpack _); vm_compute; exact I).
  split; [exact Hstatus|]. split; [exact Hnotin|].
  destruct (session_registry_effect 4%nat frames w_hospital)
    as (status & w' & Hrun & _ & Hclean & _).
  rewrite Hrun in Hstatus |- *. simpl in *. exact (Hclean Hstatus Hnotin).
Defined.

(** X8: a session's frames are handled strictly in turn: what arrives after
    the disconnect signal is never looked at, and neither is what arrives
    after a frame whose turn raised. *)
Theorem frames_after_exit_ignored (websocket : WebSocket)
    (frames rest : list frame) (now : string) (data : option json) (w : World) :
  websocket_endpoint websocket (frames ++ Disconnect :: rest) w
  = websocket_endpoint websocket (frames ++ [Disconnect]) w ∧
  (∀ e w1 w2,
     receive_loop frames (set_active_connections (λ l, l ++ [websocket]) w)
     = (None, w1) →
     handle_text now data w1 = (Raise e, w2) →
     websocket_endpoint websocket (frames ++ Text now data :: rest) w
     = websocket_endpoint websocket (frames ++ [Text now data]) w).
Proof.
  unfold websocket_endpoint, connect. split.
  - rewrite !receive_loop_app.
    by destruct (receive_loop frames _) as [[e|] w1].
  - intros e w1 w2 Hloop Hturn. rewrite !receive_loop_app, Hloop. simpl.
    by rewrite Hturn.
Qed.

Lemma frames_after_exit_ignored_witness :
  let bad := Some (JObj []) in
  let late := [Text "2024-01-01T00:00:01"
                 (Some (JObj [("type", JStr "battle_action")]))] in
  receive_loop [] (set_active_connections (λ l, l ++ [4%nat]) w_hospital)
  = (None, set_active_connections (λ l, l ++ [4%nat]) w_hospital) ∧
  handle_text "2024-01-01T00:00:00" bad
    (set_active_connections (λ l, l ++ [4%nat]) w_hospital)
  = (Raise (KeyError "type"),
     set_active_connections (λ l, l ++ [4%nat]) w_hospital) ∧
  websocket_endpoint 4%nat ([] ++ Text "2024-01-01T00:00:00" bad :: late)
    w_hospital
  = websocket_endpoint 4%nat ([] ++ [Text "2024-01-01T00:00:00" bad])
      w_hospital.
Proof.
  intros bad late.
  assert (receive_loop []
            (set_active_connections (λ l, l ++ [4%nat]) w_hospital)
          = (None, set_active_connections (λ l, l ++ [4%nat]) w_hospital))
    as Hloop by reflexivity.
  assert (handle_text "2024-01-01T00:00:00" bad
            (set_active_connections (λ l, l ++ [4%nat]) w_hospital)
          = (Raise (KeyError "type"),
             set_active_connections (λ l, l ++ [4%nat]) w_hospital))
    as Hturn by reflexivity.
  split; [exact Hloop|]. split; [exact Hturn|].
  exact (proj2 (frames_after_exit_ignored 4%nat [] late
                  "2024-01-01T00:00:00" bad w_hospital) _ _ _ Hloop Hturn).
Defined.

Lemma broadcast_amid_quiet others :
  Forall quiet others →
  ∀ position message w,
    ∃ w' sent,
      broadcast_amid others position message w = (Ok tt, w') ∧
      active_connections w' = active_connections w ∧
      broken w' = broken w ∧
      delivered w' = delivered w ++ sent ∧
      ∀ c, c ∈ drop position (active_connections w) →
           broken w !! c = None → (c, message) ∈ sent.
Proof.
  induction 1 as [|other others Hquiet _ IH]; intros position message w.
  - simpl. rewrite broadcast_from_spec by lia. eexists _, _.
    split; [done|]. split; [done|]. split; [done|]. split; [done|].
    intros c Hin Hok. apply list_elem_of_fmap. exists c. split; [done|].
    by apply list_elem_of_filter.
  - simpl. destruct (active_connections w !! position) as [conn|] eqn:Hconn.
    + destruct (Hquiet w) as (Hreg & Hbroken & sent0 & Hsent0).
      rewrite (drop_S _ _ _ Hconn).
      unfold bind, try_except, send_text. rewrite Hbroken.
      destruct (broken w !! conn) as [e|] eqn:Hb; unfold ret;
        cbn beta iota zeta.
      * destruct (IH (S position) message (other w))
          as (w' & sent & -> & Hreg' & Hbroken' & Hsent & Hall).
        exists w', (sent0 ++ sent).
        split; [done|]. split; [congruence|]. split; [congruence|].
        split; [by rewrite Hsent, Hsent0, app_assoc|].
        intros c [->|Hin]%elem_of_cons Hok; [congruence|].
        apply elem_of_app. right. apply Hall; [by rewrite Hreg|].
        by rewrite Hbroken.
      * destruct (IH (S position) message
                    (set_delivered (λ d, d ++ [(conn, message)]) (other w)))
          as (w' & sent & -> & Hreg' & Hbroken' & Hsent & Hall).
        simpl in *.
        exists w', (sent0 ++ [(conn, message)] ++ sent).
        split; [done|]. split; [congruence|]. split; [congruence|].
        split; [by rewrite Hsent, Hsent0, <- !app_assoc|].
        intros c [->|Hin]%elem_of_cons Hok.
        -- apply elem_of_app. right. by left.
        -- apply elem_of_app. right. right.
           apply Hall; [by rewrite Hreg|]. by rewrite Hbroken.
    + apply lookup_ge_None in Hconn. rewrite drop_ge by lia.
      exists w, []. split; [done|]. split; [done|]. split; [done|].
      split; [by rewrite app_nil_r|].
      intros c Hin. by apply elem_of_nil in Hin.
Qed.

(** X9: as long as no session is registered or unregistered and no
    connection changes its state while the sends are awaited, [broadcast]
    reaches every registered working connection, whatever else the other
    handlers do meanwhile (votes, new battles, actions, with broadcasts of
    their own); registry and connections are as before at the end. *)
Theorem broadcast_amid_quiet_reaches_all (others : list (World → World))
    (message : envelope) (w : World) :
  Forall quiet others →
  ∃ w' sent,
    broadcast_amid others 0 message w = (Ok tt, w') ∧
    active_connections w' = active_connections w ∧
    broken w' = broken w ∧
    delivered w' = delivered w ++ sent ∧
    ∀ c, c ∈ active_connections w → broken w !! c = None →
         (c, message) ∈ sent.
Proof.
  intros Hquiet.
  destruct (broadcast_amid_quiet others Hquiet 0 message w)
    as (w' & sent & Hrun & Hreg & Hbroken & Hsent & Hall).
  exists w', sent. by rewrite drop_0 in Hall.
Qed.

Lemma quiet_cast_vote opt user_id : quiet (λ w, (cast_vote opt user_id w).2).
Proof.
  intros w. destruct (current_battle w) as [[id battle]|] eqn:Hcur.
  - rewrite (cast_vote_current _ _ _ _ _ Hcur). simpl.
    split; [done|]. split; [done|]. by eexists.
  - rewrite (cast_vote_none _ _ _ Hcur). simpl.
    split; [done|]. split; [done|]. exists []. by rewrite app_nil_r.
Qed.

Lemma broadcast_amid_quiet_reaches_all_witness :
  let others := [λ w, (cast_vote "defender" None w).2] in
  let message := vote_update {[ "attacker" := 1 ]} in
  Forall quiet others ∧
  ∃ w' sent,
    broadcast_amid others 0 message w_hospital = (Ok tt, w') ∧
    active_connections w' = active_connections w_hospital ∧
    broken w' = broken w_hospital ∧
    delivered w' = delivered w_hospital ++ sent ∧
    ∀ c, c ∈ active_connections w_hospital → broken w_hospital !! c = None →
         (c, message) ∈ sent.
Proof.
  intros others message.
  assert (Forall quiet others) as Hquiet
    by (apply Forall_singleton, quiet_cast_vote).
  split; [exact Hquiet|].
  exact (broadcast_amid_quiet_reaches_all others message w_hospital Hquiet).
Defined.

(** * Beyond the listed properties: the battle store over time *)

Section StoreMore.

Implicit Types (w : World) (battle : BattleState) (id opt : string).

(** What one step can do to [battles]. *)
Lemma step_battles_cases w w' :
  step w w' →
  battles w' = battles w
  ∨ (∃ now scenario attacker defender,
       battles w'
       = <[battle_id (new_battle now scenario attacker defender) :=
             new_battle now scenario attacker defender]> (battles w))
  ∨ (∃ id battle opt,
       current_battle w = Some (id, battle) ∧
       battles w'
       = <[id := set_audience_votes (voted opt (audience_votes battle)) battle]>
           (battles w))
  ∨ (∃ id battle action,
       current_battle w = Some (id, battle) ∧
       action_wf battle action ∧
       battles w'
       = <[id := set_battle_log (battle_log battle ++ [action]) battle]>
           (battles w)).
Proof.
  intros [now sc a d r w1 H|opt u r w1 H|ws r w1 H|ws r w1 H
          |now data r w1 H|b].
  - rewrite start_battle_spec in H. injection H as _ <-.
    right; left. by exists now, sc, a, d.
  - destruct (current_battle w) as [[id battle]|] eqn:Hcur.
    + rewrite (cast_vote_current _ _ _ _ _ Hcur) in H. injection H as _ <-.
      right; right; left. by exists id, battle, opt.
    + rewrite (cast_vote_none _ _ _ Hcur) in H. injection H as _ <-. by left.
  - injection H as _ <-. by left.
  - unfold disconnect in H.
    destruct (list_remove_first ws (active_connections w));
      injection H as _ <-; by left.
  - apply handle_text_effect in H
      as [->|(id & battle & action & rg & Hcur & _ & Hwf & ->)]; [by left|].
    right; right; right. by exists id, battle, action.
  - by left.
Qed.

Lemma action_wf_same_personas battle1 battle2 action :
  attacker_persona battle1 = attacker_persona battle2 →
  defender_persona battle1 = defender_persona battle2 →
  action_wf battle1 action → action_wf battle2 action.
Proof. unfold action_wf. by intros -> ->. Qed.

Lemma step_store_wf w w' : store_wf w → step w w' → store_wf w'.
Proof.
  intros Hwf Hstep id' battle'.
  destruct (step_battles_cases _ _ Hstep)
    as [->|[(now & sc & a & d & ->)
          |[(id & battle & opt & Hcur & ->)
           |(id & battle & action & Hcur & Hact & ->)]]].
  - apply Hwf.
  - rewrite lookup_insert. case_decide as Hid; [|apply Hwf].
    intros [= <-]. subst id'. split; [|split].
    + split; [done|]. split; [by eexists|]. done.
    + intros opt n. unfold new_battle. cbn [audience_votes].
      by rewrite lookup_empty.
    + constructor.
  - apply current_battle_Some in Hcur as (_ & _ & Hb).
    destruct (Hwf _ _ Hb) as ((Hkey & Hform & Hactive & Hlevel & Hphase)
                              & Hpos & Hlog).
    rewrite lookup_insert. case_decide as Hid; [|apply Hwf].
    intros [= <-]. subst id'. split; [|split].
    + done.
    + intros o n. simpl. unfold voted. rewrite lookup_insert.
      case_decide as Ho.
      * intros [= <-]. destruct (audience_votes battle !! opt) as [m|] eqn:Hm;
          simpl; [|lia]. specialize (Hpos _ _ Hm). lia.
      * apply Hpos.
    + simpl. eapply Forall_impl; [exact Hlog|].
      intros action. by apply action_wf_same_personas.
  - apply current_battle_Some in Hcur as (_ & _ & Hb).
    destruct (Hwf _ _ Hb) as ((Hkey & Hform & Hactive & Hlevel & Hphase)
                              & Hpos & Hlog).
    rewrite lookup_insert. case_decide as Hid; [|apply Hwf].
    intros [= <-]. subst id'. split; [|split].
    + done.
    + apply Hpos.
    + simpl. apply Forall_app. split.
      * eapply Forall_impl; [exact Hlog|].
        intros a. by apply action_wf_same_personas.
      * apply Forall_singleton.
        by apply (action_wf_same_personas battle).
Qed.

Lemma reachable_store_wf w : reachable w → store_wf w.
Proof.
  induction 1 as [b r|w w' _ IH Hstep].
  - intros id battle. simpl. by rewrite lookup_empty.
  - by apply (step_store_wf w).
Qed.

(** X19: whatever one handler does, a stored battle stays stored under its
    identifier.  Either it is continued: its log is extended at the end, no
    count of its tally decreases, and nothing else of it changes; or the
    step was a [start_battle] that produced the same identifier and put its
    new battle in its place. *)
Theorem step_battle_continued w w' id battle :
  step w w' →
  battles w !! id = Some battle →
  ∃ battle',
    battles w' !! id = Some battle' ∧
    ((battle_log battle `prefix_of` battle_log battle' ∧
      (∀ opt n, audience_votes battle !! opt = Some n →
                ∃ n', audience_votes battle' !! opt = Some n' ∧ (n ≤ n')%Z) ∧
      set_audience_votes ∅ (set_battle_log [] battle')
      = set_audience_votes ∅ (set_battle_log [] battle))
     ∨ (∃ now scenario attacker defender,
          start_battle now scenario attacker defender w
          = (Ok (mkStartResponse "Battle started" id battle'), w'))).
Proof.
  intros Hstep Hb.
  assert (∃ battle', Some battle = Some battle' ∧
            (battle_log battle `prefix_of` battle_log battle' ∧
             (∀ opt n, audience_votes battle !! opt = Some n →
                ∃ n', audience_votes battle' !! opt = Some n' ∧ (n ≤ n')%Z) ∧
             set_audience_votes ∅ (set_battle_log [] battle')
             = set_audience_votes ∅ (set_battle_log [] battle))) as Hsame.
  { exists battle. split; [done|]. split; [done|]. split; [|done].
    intros opt n Hn. exists n. split; [done|lia]. }
  destruct Hstep as [now sc a d r w1 H|opt u r w1 H|ws r w1 H|ws r w1 H
                     |now data r w1 H|b].
  - pose proof H as Hrun.
    rewrite start_battle_spec in H. injection H as <- <-. simpl.
    rewrite lookup_insert. case_decide as Hid.
    + eexists. split; [done|]. right. exists now, sc, a, d.
      rewrite Hrun. subst id. done.
    + rewrite Hb. destruct Hsame as (b' & ? & ?). exists b'. split; [done|].
      by left.
  - destruct (current_battle w) as [[id0 battle0]|] eqn:Hcur.
    + rewrite (cast_vote_current _ _ _ _ _ Hcur) in H. injection H as _ <-.
      simpl. rewrite lookup_insert. case_decide as Hid.
      * subst id0. apply current_battle_Some in Hcur as (_ & _ & Hb0).
        rewrite Hb in Hb0. injection Hb0 as <-.
        eexists. split; [done|]. left. simpl. split; [done|]. split; [|done].
        intros o n Hn. unfold voted. rewrite lookup_insert.
        case_decide as Ho.
        -- subst o. rewrite Hn. simpl. eexists. split; [done|lia].
        -- exists n. split; [done|lia].
      * rewrite Hb. destruct Hsame as (b' & ? & ?). exists b'.
        split; [done|]. by left.
    + rewrite (cast_vote_none _ _ _ Hcur) in H. injection H as _ <-.
      rewrite Hb. destruct Hsame as (b' & ? & ?). exists b'.
      split; [done|]. by left.
  - injection H as _ <-. simpl. rewrite Hb.
    destruct Hsame as (b' & ? & ?). exists b'. split; [done|]. by left.
  - unfold disconnect in H.
    destruct (list_remove_first ws (active_connections w));
      injection H as _ <-; simpl; rewrite Hb;
      destruct Hsame as (b' & ? & ?); exists b'; (split; [done|]); by left.
  - apply handle_text_cases in H
      as [->|(id0 & battle0 & action & rg & Hcur & _ & ->)].
    + rewrite Hb. destruct Hsame as (b' & ? & ?). exists b'.
      split; [done|]. by left.
    + simpl. rewrite lookup_insert. case_decide as Hid.
      * subst id0. apply current_battle_Some in Hcur as (_ & _ & Hb0).
        rewrite Hb in Hb0. injection Hb0 as <-.
        eexists. split; [done|]. left. simpl.
        split; [by apply prefix_app_r|]. split; [|done].
        intros o n Hn. exists n. split; [done|lia].
      * rewrite Hb. destruct Hsame as (b' & ? & ?). exists b'.
        split; [done|]. by left.
  - simpl. rewrite Hb. destruct Hsame as (b' & ? & ?). exists b'.
    split; [done|]. by left.
Qed.

(** The example states can be reached. *)
Lemma reachable_w_idle : reachable w_idle.
Proof.
  apply (reachable_step
           (mkWorld ∅ None [1; 2]%nat {[ 2%nat := RuntimeError "closed" ]} []
                    (mkRng (λ n, N.of_nat n) 0)));
    [|by apply (step_connect _ 3%nat (Ok tt))].
  apply (reachable_step
           (mkWorld ∅ None [1]%nat {[ 2%nat := RuntimeError "closed" ]} []
                    (mkRng (λ n, N.of_nat n) 0)));
    [|by apply (step_connect _ 2%nat (Ok tt))].
  apply (reachable_step
           (mkWorld ∅ None [] {[ 2%nat := RuntimeError "closed" ]} []
                    (mkRng (λ n, N.of_nat n) 0)));
    [|by apply (step_connect _ 1%nat (Ok tt))].
  apply reachable_start.
Qed.

Lemma reachable_start_battle now scenario attacker defender w :
  reachable w → reachable (start_battle now scenario attacker defender w).2.
Proof.
  intros Hw. apply (reachable_step w); [done|].
  apply (step_start_battle w now scenario attacker defender
           (start_battle now scenario attacker defender w).1).
  by destruct (start_battle now scenario attacker defender w).
Qed.

Lemma reachable_cast_vote opt user_id w :
  reachable w → reachable (cast_vote opt user_id w).2.
Proof.
  intros Hw. apply (reachable_step w); [done|].
  apply (step_cast_vote w opt user_id (cast_vote opt user_id w).1).
  by destruct (cast_vote opt user_id w).
Qed.

Lemma reachable_cast_votes calls last w :
  reachable w → reachable (cast_votes calls last w).2.
Proof.
  revert last w. induction calls as [|[opt user_id] calls IH];
    intros last w Hw; [done|].
  simpl. unfold bind.
  pose proof (reachable_cast_vote opt user_id w Hw) as Hw1.
  destruct (cast_vote opt user_id w) as [[response|e] w1]; [|done].
  by apply IH.
Qed.

Lemma reachable_handle_text now data w :
  reachable w → reachable (handle_text now data w).2.
Proof.
  intros Hw. apply (reachable_step w); [done|].
  apply (step_handle_text w now data (handle_text now data w).1).
  by destruct (handle_text now data w).
Qed.

Lemma reachable_w_hospital : reachable w_hospital.
Proof. apply reachable_start_battle, reachable_w_idle. Qed.

Lemma reachable_w_voted : reachable w_voted.
Proof. apply reachable_cast_votes, reachable_w_hospital. Qed.

Lemma reachable_w_acted : reachable w_acted.
Proof. apply reachable_handle_text, reachable_w_voted. Qed.

End StoreMore.

Section StoreOverTime.

Implicit Types (w : World) (battle : BattleState) (id opt : string).

Lemma step_current_stays w w' :
  step w w' → is_Some (current_battle_id w) → is_Some (current_battle_id w').
Proof.
  intros [now sc a d r w1 H|opt u r w1 H|ws r w1 H|ws r w1 H
          |now data r w1 H|b] Hcur.
  - rewrite start_battle_spec in H. injection H as _ <-. by eexists.
  - destruct (current_battle w) as [[id battle]|] eqn:Hc.
    + rewrite (cast_vote_current _ _ _ _ _ Hc) in H. by injection H as _ <-.
    + rewrite (cast_vote_none _ _ _ Hc) in H. by injection H as _ <-.
  - by injection H as _ <-.
  - unfold disconnect in H.
    destruct (list_remove_first ws (active_connections w));
      by injection H as _ <-.
  - apply handle_text_registry in H as (_ & _ & ->). done.
  - done.
Qed.

Lemma current_battle_is_Some w :
  current_is_stored w →
  is_Some (current_battle w) ↔ is_Some (current_battle_id w).
Proof.
  unfold current_is_stored, current_battle.
  destruct (current_battle_id w) as [id|]; [|intros _; split; by intros [??]].
  intros [Hne [b Hb]]. rewrite decide_False, Hb by done.
  split; intros _; by eexists.
Qed.

Lemma rtc_reachable w w' : reachable w → rtc step w w' → reachable w'.
Proof.
  intros Hw Hsteps. induction Hsteps as [|w w1 w2 Hstep _ IH]; [done|].
  apply IH. by apply (reachable_step w).
Qed.

End StoreOverTime.

Lemma step_battle_continued_witness :
  let battle :=
    new_battle (Qmake 6800000001 4) "hospital" "apt_group" "ai_defender" in
  let w' := (cast_vote "defender" None w_hospital).2 in
  step w_hospital w' ∧
  battles w_hospital !! "battle_1700000000" = Some battle ∧
  ∃ battle',
    battles w' !! "battle_1700000000" = Some battle' ∧
    ((battle_log battle `prefix_of` battle_log battle' ∧
      (∀ opt n, audience_votes battle !! opt = Some n →
                ∃ n', audience_votes battle' !! opt = Some n' ∧ (n ≤ n')%Z) ∧
      set_audience_votes ∅ (set_battle_log [] battle')
      = set_audience_votes ∅ (set_battle_log [] battle))
     ∨ (∃ now scenario attacker defender,
          start_battle now scenario attacker defender w_hospital
          = (Ok (mkStartResponse "Battle started" "battle_1700000000" battle'),
             w'))).
Proof.
  intros battle w'.
  assert (step w_hospital w') as Hstep.
  { apply (step_cast_vote w_hospital "defender" None
             (cast_vote "defender" None w_hospital).1).
    unfold w'. by destruct (cast_vote "defender" None w_hospital). }
  assert (battles w_hospital !! "battle_1700000000" = Some battle) as Hb
    by (vm_compute; reflexivity).
  split; [exact Hstep|]. split; [exact Hb|].
  exact (step_battle_continued w_hospital w' "battle_1700000000" battle
           Hstep Hb).
Defined.

(** X11: [get_current_battle] changes nothing and uses the same test as
    [cast_vote]: it answers "no battle" exactly in the states where a vote
    is refused with the 404 error, and when it shows a battle, a vote for
    any option is accepted and the next [get_current_battle] shows that
    battle with the new tally. *)
Theorem get_current_battle_agrees_with_cast_vote (opt : string)
    (user_id : option string) (w : World) :
  (get_current_battle w).2 = w ∧
  ((get_current_battle w).1 = Ok None
   ↔ cast_vote opt user_id w
     = (Raise (HTTPException 404 "No active battle"), w)) ∧
  (∀ battle,
     (get_current_battle w).1 = Ok (Some battle) →
     ∃ w',
       cast_vote opt user_id w
       = (Ok (mkVoteResponse "Vote cast successfully"
                (voted opt (audience_votes battle))), w') ∧
       get_current_battle w'
       = (Ok (Some (set_audience_votes (voted opt (audience_votes battle))
                      battle)), w')).
Proof.
  unfold get_current_battle. simpl. split; [done|]. split.
  - destruct (current_battle w) as [[id battle]|] eqn:Hcur; simpl.
    + rewrite (cast_vote_current _ _ _ _ _ Hcur). split; discriminate.
    + by rewrite (cast_vote_none _ _ _ Hcur).
  - intros battle.
    destruct (current_battle w) as [[id battle0]|] eqn:Hcur; simpl;
      [|discriminate].
    intros [= ->]. eexists. split; [by apply cast_vote_current|].
    by rewrite (current_battle_after_vote _ _ _ _ _ Hcur).
Qed.

Lemma get_current_battle_agrees_with_cast_vote_witness :
  let battle :=
    new_battle (Qmake 6800000001 4) "hospital" "apt_group" "ai_defender" in
  (get_current_battle w_hospital).1 = Ok (Some battle) ∧
  ∃ w',
    cast_vote "attacker" None w_hospital
    = (Ok (mkVoteResponse "Vote cast successfully"
             (voted "attacker" (audience_votes battle))), w') ∧
    get_current_battle w'
    = (Ok (Some (set_audience_votes (voted "attacker" (audience_votes battle))
                   battle)), w').
Proof.
  intros battle.
  assert ((get_current_battle w_hospital).1 = Ok (Some battle)) as Hshown
    by (vm_compute; reflexivity).
  split; [exact Hshown|].
  exact (proj2 (proj2 (get_current_battle_agrees_with_cast_vote "attacker"
                         None w_hospital)) battle Hshown).
Defined.

(** X12: [start_battle] never raises, whatever its arguments and the state.
    It keeps every battle stored under another identifier, makes the new
    battle current, and ends with the broadcast of a [battle_started]
    envelope that carries it.  Votes cast before do not carry over: the
    first vote after it, for any option, returns the tally with that one
    option at 1, and that is the tally [get_current_battle] then shows. *)
Theorem start_battle_then_first_vote (now : float)
    (scenario attacker defender opt : string) (user_id : option string)
    (w : World) :
  ∃ response w1 w2,
    start_battle now scenario attacker defender w = (Ok response, w1) ∧
    (∀ id, id ≠ start_battle_id response →
           battles w1 !! id = battles w !! id) ∧
    (Ok tt, w1)
    = broadcast (battle_started (start_battle_state response))
        (set_battles
           (insert (start_battle_id response) (start_battle_state response))
           (set_current_battle_id (Some (start_battle_id response)) w)) ∧
    cast_vote opt user_id w1
    = (Ok (mkVoteResponse "Vote cast successfully" {[ opt := 1 ]}), w2) ∧
    get_current_battle w2
    = (Ok (Some (set_audience_votes {[ opt := 1 ]}
                   (start_battle_state response))), w2).
Proof.
  pose proof (current_battle_after_start now scenario attacker defender w)
    as Hcur.
  pose proof (start_battle_spec now scenario attacker defender w) as Hstart.
  simpl in Hstart. rewrite Hstart in Hcur |- *. simpl in Hcur.
  eexists _, _, _. split; [done|]. simpl.
  split; [by intros id Hne; rewrite lookup_insert_ne|].
  split; [by rewrite broadcast_spec|].
  rewrite (cast_vote_current _ _ _ _ _ Hcur).
  assert (voted opt (audience_votes
                       (new_battle now scenario attacker defender))
          = {[ opt := 1 ]}) as ->
    by (unfold voted, new_battle; cbn [audience_votes];
        by rewrite lookup_empty).
  split; [done|].
  unfold get_current_battle.
  by rewrite (current_battle_after_vote _ _ _ _ _ Hcur).
Qed.

(** X13: an accepted vote changes one entry of one tally and nothing else
    in the store: the entry of the option goes up by one (from 0 when it was
    absent), every other entry of that tally, the battle's log and its other
    fields, every other battle, the current identifier, the registry and
    the random generator are as before. *)
Theorem cast_vote_touches_one_entry (opt : string) (user_id : option string)
    (w : World) (id : string) (battle : BattleState) :
  current_battle w = Some (id, battle) →
  ∃ response w' battle',
    cast_vote opt user_id w = (Ok response, w') ∧
    battles w' !! id = Some battle' ∧
    audience_votes battle' !! opt
    = Some (default 0 (audience_votes battle !! opt) + 1) ∧
    (∀ o, o ≠ opt → audience_votes battle' !! o = audience_votes battle !! o) ∧
    set_audience_votes (audience_votes battle) battle' = battle ∧
    (∀ id', id' ≠ id → battles w' !! id' = battles w !! id') ∧
    current_battle_id w' = current_battle_id w ∧
    active_connections w' = active_connections w ∧
    rng w' = rng w.
Proof.
  intros Hcur. rewrite (cast_vote_current _ _ _ _ _ Hcur).
  eexists _, _, _. split; [done|]. simpl.
  split; [by rewrite lookup_insert_eq|]. simpl. unfold voted.
  split; [by rewrite lookup_insert_eq|].
  split; [by intros o Hne; rewrite lookup_insert_ne|].
  split; [by destruct battle|].
  split; [by intros id' Hne; rewrite lookup_insert_ne|]. done.
Qed.

Lemma cast_vote_touches_one_entry_witness :
  let battle :=
    new_battle (Qmake 6800000001 4) "hospital" "apt_group" "ai_defender" in
  current_battle w_hospital = Some ("battle_1700000000", battle) ∧
  ∃ response w' battle',
    cast_vote "defender" None w_hospital = (Ok response, w') ∧
    battles w' !! "battle_1700000000" = Some battle' ∧
    audience_votes battle' !! "defender"
    = Some (default 0 (audience_votes battle !! "defender") + 1) ∧
    (∀ o, o ≠ "defender" →
          audience_votes battle' !! o = audience_votes battle !! o) ∧
    set_audience_votes (audience_votes battle) battle' = battle ∧
    (∀ id', id' ≠ "battle_1700000000" →
            battles w' !! id' = battles w_hospital !! id') ∧
    current_battle_id w' = current_battle_id w_hospital ∧
    active_connections w' = active_connections w_hospital ∧
    rng w' = rng w_hospital.
Proof.
  intros battle.
  assert (current_battle w_hospital = Some ("battle_1700000000", battle))
    as Hcur by (vm_compute; reflexivity).
  split; [exact Hcur|].
  exact (cast_vote_touches_one_entry "defender" None w_hospital
           "battle_1700000000" battle Hcur).
Defined.

(** X14: the identifier [start_battle] returns is "battle_" followed by the
    clock reading cut to whole seconds: two calls return the same
    identifier exactly when their readings have the same whole part, and
    for a reading that is not negative the number in the identifier is the
    largest integer not above the reading. *)
Theorem battle_identifier_is_whole_seconds (now1 now2 : float)
    (s1 a1 d1 s2 a2 d2 : string) (w1 w2 : World) :
  (∃ r1 r2 w1' w2',
     start_battle now1 s1 a1 d1 w1 = (Ok r1, w1') ∧
     start_battle now2 s2 a2 d2 w2 = (Ok r2, w2') ∧
     start_battle_id r1 = "battle_" +:+ pretty (int_of_float now1) ∧
     (start_battle_id r1 = start_battle_id r2
      ↔ int_of_float now1 = int_of_float now2)) ∧
  ((0 <= now1)%Q →
     (inject_Z (int_of_float now1) <= now1)%Q ∧
     (now1 < inject_Z (int_of_float now1 + 1))%Q).
Proof.
  split.
  - eexists _, _, _, _.
    split; [apply start_battle_spec|]. split; [apply start_battle_spec|].
    split; [done|]. apply battle_id_eq_iff.
  - intros Hnonneg.
    assert (int_of_float now1 = Qfloor now1) as ->.
    { destruct now1 as [n d]. unfold int_of_float, Qfloor. simpl.
      apply Z.quot_div_nonneg; [|done].
      unfold Qle in Hnonneg. simpl in Hnonneg. lia. }
    split; [apply Qfloor_le|apply Qlt_floor].
Qed.

Lemma battle_identifier_is_whole_seconds_witness :
  (0 <= Qmake 6800000003 4)%Q ∧
  (inject_Z (int_of_float (Qmake 6800000003 4)) <= Qmake 6800000003 4)%Q ∧
  (Qmake 6800000003 4 < inject_Z (int_of_float (Qmake 6800000003 4) + 1))%Q.
Proof.
  assert (0 <= Qmake 6800000003 4)%Q as Hnonneg by (by vm_compute).
  split; [exact Hnonneg|].
  exact (proj2 (battle_identifier_is_whole_seconds (Qmake 6800000003 4) 0%Q
                  "" "" "" "" "" "" w_idle w_idle) Hnonneg).
Defined.

(** X15: in every state the process can reach, each stored battle sits
    under its own identifier, which is "battle_" followed by an integer,
    and is still as [start_battle] made it apart from tally and log:
    active, at threat level 1, in phase "reconnaissance".  No handler ever
    ends a battle or moves it on. *)
Theorem stored_battles_keep_their_shape (w : World) (id : string)
    (battle : BattleState) :
  reachable w →
  battles w !! id = Some battle →
  battle_id battle = id ∧
  (∃ seconds : Z, id = "battle_" +:+ pretty seconds) ∧
  is_active battle = true ∧
  threat_level battle = 1 ∧
  current_phase battle = "reconnaissance".
Proof.
  intros Hw Hb. by destruct (reachable_store_wf w Hw id battle Hb) as [? _].
Qed.

Lemma stored_battles_keep_their_shape_witness :
  ∃ battle,
    reachable w_acted ∧
    battles w_acted !! "battle_1700000000" = Some battle ∧
    battle_id battle = "battle_1700000000" ∧
    (∃ seconds : Z, "battle_1700000000" = "battle_" +:+ pretty seconds) ∧
    is_active battle = true ∧
    threat_level battle = 1 ∧
    current_phase battle = "reconnaissance".
Proof.
  destruct (battles w_acted !! "battle_1700000000") as [battle|] eqn:Hb;
    [|exfalso; vm_compute in Hb; discriminate Hb].
  exists battle. split; [exact reachable_w_acted|]. split; [reflexivity|].
  exact (stored_battles_keep_their_shape w_acted "battle_1700000000" battle
           reachable_w_acted Hb).
Defined.

(** X16: in every reachable state every entry of every tally is at least
    1: the zero that [cast_vote] stores for a new option is incremented
    before anything else can see it. *)
Theorem tally_entries_are_positive (w : World) (id : string)
    (battle : BattleState) (opt : string) (n : Z) :
  reachable w →
  battles w !! id = Some battle →
  audience_votes battle !! opt = Some n →
  (1 ≤ n)%Z.
Proof.
  intros Hw Hb Hn.
  destruct (reachable_store_wf w Hw id battle Hb) as (_ & Hpos & _).
  by apply (Hpos opt).
Qed.

Lemma tally_entries_are_positive_witness :
  ∃ battle,
    reachable w_voted ∧
    battles w_voted !! "battle_1700000000" = Some battle ∧
    audience_votes battle !! "defender" = Some 2 ∧
    (1 ≤ 2)%Z.
Proof.
  destruct (battles w_voted !! "battle_1700000000") as [battle|] eqn:Hb;
    [|exfalso; vm_compute in Hb; discriminate Hb].
  assert (audience_votes battle !! "defender" = Some 2) as Hn.
  { assert (Some battle = battles w_voted !! "battle_1700000000") as Heq
      by (by rewrite Hb).
    vm_compute in Heq. injection Heq as ->. by vm_compute. }
  exists battle. split; [exact reachable_w_voted|]. split; [reflexivity|].
  split; [exact Hn|].
  exact (tally_entries_are_positive w_voted "battle_1700000000" battle
           "defender" 2 reachable_w_voted Hb Hn).
Defined.

(** X17: in every reachable state every action in every log is one the
    battle's own personas can produce: both persona tags are in the tables,
    an attack names the attacker persona, one of its techniques, its threat
    level and a success probability in range, a defense names the defender
    persona, its strategy and an effectiveness in range.  So a battle
    started with an unknown tag has an empty log for ever. *)
Theorem logged_actions_are_well_formed (w : World) (id : string)
    (battle : BattleState) (action : Action) :
  reachable w →
  battles w !! id = Some battle →
  action ∈ battle_log battle →
  action_wf battle action.
Proof.
  intros Hw Hb Hin.
  destruct (reachable_store_wf w Hw id battle Hb) as (_ & _ & Hlog).
  by apply (proj1 (Forall_forall _ _) Hlog).
Qed.

Lemma logged_actions_are_well_formed_witness :
  ∃ battle action,
    reachable w_acted ∧
    battles w_acted !! "battle_1700000000" = Some battle ∧
    action ∈ battle_log battle ∧
    action_wf battle action.
Proof.
  destruct (battles w_acted !! "battle_1700000000") as [battle|] eqn:Hb;
    [|exfalso; vm_compute in Hb; discriminate Hb].
  destruct (battle_log battle) as [|action log] eqn:Hlog.
  { exfalso.
    assert (Some battle = battles w_acted !! "battle_1700000000") as Heq
      by (by rewrite Hb).
    vm_compute in Heq. injection Heq as ->. discriminate Hlog. }
  assert (action ∈ battle_log battle) as Hin by (rewrite Hlog; by left).
  exists battle, action. split; [exact reachable_w_acted|].
  split; [reflexivity|]. split; [exact Hin|].
  exact (logged_actions_are_well_formed w_acted "battle_1700000000" battle
           action reachable_w_acted Hb Hin).
Defined.

Lemma step_battle_continued_keys (w w' : World) (id : string)
    (battle : BattleState) :
  step w w' → battles w !! id = Some battle → is_Some (battles w' !! id).
Proof.
  intros Hstep Hb.
  destruct (step_battles_cases _ _ Hstep)
    as [->|[(now & sc & a & d & ->)
          |[(id0 & battle0 & opt & _ & ->)
           |(id0 & battle0 & action & _ & _ & ->)]]];
    [by eexists|..];
    rewrite lookup_insert; case_decide; by eexists.
Qed.

(** X18: nothing is ever removed from [battles], and once a battle has been
    started there is a current battle for ever: from a reachable state,
    after any further handler steps, every identifier stored before is
    still stored, and if a vote was accepted before it is accepted now. *)
Theorem battles_are_kept (w w' : World) :
  reachable w →
  rtc step w w' →
  (∀ id, is_Some (battles w !! id) → is_Some (battles w' !! id)) ∧
  (is_Some (current_battle w) → is_Some (current_battle w')) ∧
  (∀ opt user_id,
     is_Some (current_battle w) →
     ∃ response w'', cast_vote opt user_id w' = (Ok response, w'')).
Proof.
  intros Hw Hsteps.
  assert ((∀ id, is_Some (battles w !! id) → is_Some (battles w' !! id)) ∧
          (is_Some (current_battle w) → is_Some (current_battle w')))
    as [Hkeys Hcur].
  { induction Hsteps as [|w w1 w2 Hstep Hsteps IH]; [done|].
    assert (reachable w1) as Hw1 by (by apply (reachable_step w)).
    destruct (IH Hw1) as [IHkeys IHcur]. split.
    - intros id [b Hb]. apply IHkeys.
      destruct (step_battle_continued_keys w w1 id b Hstep Hb) as [b' Hb'].
      by exists b'.
    - intros Hc. apply IHcur.
      apply current_battle_is_Some; [by apply reachable_current_is_stored|].
      apply (step_current_stays w); [done|].
      by apply current_battle_is_Some;
        [apply reachable_current_is_stored|]. }
  split; [done|]. split; [done|].
  intros opt user_id Hc. destruct (Hcur Hc) as [[id battle] Hcur'].
  eexists _, _. by apply cast_vote_current.
Qed.

Lemma battles_are_kept_witness :
  let w' := (cast_vote "defender" None w_hospital).2 in
  reachable w_hospital ∧
  rtc step w_hospital w' ∧
  is_Some (current_battle w_hospital) ∧
  (∀ id, is_Some (battles w_hospital !! id) → is_Some (battles w' !! id)) ∧
  ∃ response w'', cast_vote "attacker" None w' = (Ok response, w'').
Proof.
  intros w'.
  assert (rtc step w_hospital w') as Hsteps.
  { apply rtc_once.
    apply (step_cast_vote w_hospital "defender" None
             (cast_vote "defender" None w_hospital).1).
    unfold w'. by destruct (cast_vote "defender" None w_hospital). }
  assert (is_Some (current_battle w_hospital)) as Hcur
    by (vm_compute; eauto).
  split; [exact reachable_w_hospital|]. split; [exact Hsteps|].
  split; [exact Hcur|].
  destruct (battles_are_kept w_hospital w' reachable_w_hospital Hsteps)
    as (Hkeys & _ & Hvote).
  split; [exact Hkeys|]. exact (Hvote "attacker" None Hcur).
Defined.
